(** * set-my-stack: the scaffolding command of [bin/index.js]

    A shallow embedding of the command-line tool: the host file tree is a
    finite map from absolute paths to nodes, the Node.js calls the script
    makes ([fs.mkdir], [fs.writeFile], [execSync], the console, the prompts)
    are operations of a state-and-exception monad which also records every
    call in a trace, and the five functions of the script are written in
    that monad in the order of the source. *)

From Stdlib Require Import ZArith String Ascii List Lia.
From stdpp Require Import base option gmap strings list.

Local Open Scope string_scope.
Local Open Scope list_scope.

(** ** Characters the templates need *)

Definition LF : string := String (Ascii.Ascii false true false true false false false false) EmptyString.
Definition DQ : string := String (Ascii.Ascii false true false false false true false false) EmptyString.

(** A template literal, one element per source line. *)
Fixpoint unlines (ls : list string) : string :=
  match ls with
  | [] => EmptyString
  | [l] => l
  | l :: rest => l +:+ LF +:+ unlines rest
  end.

(** ** Paths ([path.join] on a POSIX host) *)

Module Path.

(** An absolute, normalised path: its segments, from the root. *)
Definition t := list string.

Definition is_slash (c : ascii) : bool := Ascii.eqb c "/"%char.

(** The text between the separators of [s]. *)
Fixpoint split (s : string) : list string :=
  match s with
  | EmptyString => [EmptyString]
  | String c r =>
    if is_slash c then EmptyString :: split r
    else match split r with
         | h :: t => String c h :: t
         | [] => [String c EmptyString]
         end
  end.

Definition dirname (p : t) : t := removelast p.

(** [normalizeString]: empty and [.] segments vanish, [..] drops the last
    segment kept so far (and nothing at the root). *)
Definition step (p : t) (seg : string) : t :=
  if String.eqb seg EmptyString then p
  else if String.eqb seg "." then p
  else if String.eqb seg ".." then dirname p
  else p ++ [seg].

(** [path.join(base, rel)] for an absolute, normalised [base]. *)
Definition join (base : t) (rel : string) : t :=
  fold_left step (split rel) base.

Fixpoint render_segments (p : t) : string :=
  match p with
  | [] => EmptyString
  | seg :: rest => "/" +:+ seg +:+ render_segments rest
  end.

(** The text of a normalised path, with no trailing separator. *)
Definition to_string (p : t) : string :=
  match p with
  | [] => "/"
  | _ => render_segments p
  end.

Fixpoint ends_with_slash (s : string) : bool :=
  match s with
  | EmptyString => false
  | String c EmptyString => is_slash c
  | String _ r => ends_with_slash r
  end.

(** The text [path.join(base, rel)] returns: [normalize] keeps a trailing
    separator, except at the root. *)
Definition join_text (base : t) (rel : string) : string :=
  match join base rel with
  | [] => "/"
  | p => render_segments p +:+ (if ends_with_slash rel then "/" else EmptyString)
  end.

(** A name that is one ordinary segment. *)
Definition plain_segment (s : string) : bool :=
  negb (String.eqb s EmptyString) && negb (String.eqb s ".")
  && negb (String.eqb s "..") && negb (existsb is_slash (list_ascii_of_string s)).

End Path.

(** ** The file tree and what can go wrong *)

Inductive node :=
| Dir
| File (content : string).

Inductive errno := EACCES | EEXIST | ENOENT | ENOTDIR | EISDIR.

Inductive error :=
| FsError (code : errno) (p : Path.t)
| ExecError (cmd : string) (status : Z)
| PromptError (message : string).

Inductive spinner_call := SpinStart | SpinText | SpinSucceed | SpinFail.

(** One entry per call the script makes to the outside. *)
Inductive event :=
| EvConsoleLog (text : string)
| EvConsoleError (label : option string) (e : error)
| EvPrompt (message : string)
| EvSpinner (call : spinner_call) (text : string)
| EvMkdir (p : Path.t) (r : option error)
| EvWriteFile (p : Path.t) (content : string) (r : option error)
| EvExec (cmd : string) (cwd : Path.t) (r : option error)
| EvExit (code : Z).

Inductive host_call :=
| CallMkdir (p : Path.t)
| CallOpen (p : Path.t)
| CallPrompt (message : string)
| CallCwd.

(** The host: which calls it refuses whatever the tree looks like
    (permissions, quota, a failing device; for a prompt, an input stream that
    is closed; for the working directory, one that was removed), and what a
    subprocess does to the tree and exits with. *)
Record host := {
  refuses : host_call → bool;
  subprocess : string → Path.t → gmap Path.t node → Z * gmap Path.t node;
}.

Record world := {
  files : gmap Path.t node;
  trace : list event;
}.

Definition node_at (fs : gmap Path.t node) (p : Path.t) : option node :=
  match p with
  | [] => Some Dir
  | _ => fs !! p
  end.

Definition is_dir (fs : gmap Path.t node) (p : Path.t) : bool :=
  match node_at fs p with
  | Some Dir => true
  | _ => false
  end.

(** Path resolution from the root: the first component of [below] that is
    not a directory, and why it stops the walk. *)
Fixpoint resolve (fs : gmap Path.t node) (above : Path.t) (below : list string)
  : option errno :=
  match below with
  | [] => None
  | seg :: rest =>
    match node_at fs (above ++ [seg]) with
    | Some Dir => resolve fs (above ++ [seg]) rest
    | Some (File _) => Some ENOTDIR
    | None => Some ENOENT
    end
  end.

(** Why the directory [p] cannot be entered, if it cannot.  In a tree every
    entry lies in a directory, so only for a missing [p] is the walk needed,
    to tell a file on the way ([ENOTDIR]) from a missing component
    ([ENOENT]). *)
Definition enter_error (fs : gmap Path.t node) (p : Path.t) : option errno :=
  match node_at fs p with
  | Some Dir => None
  | Some (File _) => Some ENOTDIR
  | None => Some (default ENOENT (resolve fs [] p))
  end.

(** ** The monad: state, and a thrown error that unwinds to the nearest [try] *)

Inductive completion (A : Type) :=
| Normal (a : A)
| Throw (e : error).
Arguments Normal {A} a.
Arguments Throw {A} e.

Definition prog (A : Type) : Type := world → completion A * world.

#[global] Instance prog_ret : MRet prog := λ A a w, (Normal a, w).

#[global] Instance prog_bind : MBind prog := λ A B k m w,
  match m w with
  | (Normal a, w') => k a w'
  | (Throw e, w') => (Throw e, w')
  end.

Definition throw {A} (e : error) : prog A := λ w, (Throw e, w).

Definition try_catch {A} (body : prog A) (handler : error → prog A) : prog A := λ w,
  match body w with
  | (Normal a, w') => (Normal a, w')
  | (Throw e, w') => handler e w'
  end.

Definition emit (ev : event) : prog unit := λ w,
  (Normal tt, {| files := files w; trace := trace w ++ [ev] |}).

Definition get_files : prog (gmap Path.t node) := λ w, (Normal (files w), w).

Definition put_files (fs : gmap Path.t node) : prog unit := λ w,
  (Normal tt, {| files := fs; trace := trace w |}).

Fixpoint for_each {A} (xs : list A) (body : A → prog unit) : prog unit :=
  match xs with
  | [] => mret tt
  | x :: rest => body x ;; for_each rest body
  end.

(** ** The Node.js calls, on the model *)

Section Node.
Context (H : host).

(** One [mkdir(2)]. *)
Definition mkdir_one (fs : gmap Path.t node) (p : Path.t) : errno + gmap Path.t node :=
  if refuses H (CallMkdir p) then inl EACCES
  else match node_at fs p with
       | Some _ => inl EEXIST
       | None =>
         match node_at fs (Path.dirname p) with
         | None => inl ENOENT
         | Some (File _) => inl ENOTDIR
         | Some Dir => inr (<[p := Dir]> fs)
         end
       end.

(** One round of the recursive [mkdir]: an entry that is already a directory
    is fine; [pending] says that deeper directories are still to be made. *)
Definition mkdir_attempt (fs : gmap Path.t node) (p : Path.t) (pending : bool)
  : option errno * gmap Path.t node :=
  match mkdir_one fs p with
  | inr fs' => (None, fs')
  | inl EEXIST =>
    if is_dir fs p then (None, fs)
    else (Some (if pending then ENOTDIR else EEXIST), fs)
  | inl e => (Some e, fs)
  end.

(** [fs.mkdir(p, { recursive: true })] on the reversed path: the directory
    itself first, its parent when that is missing, then the directory again.
    What was made before a failure stays. *)
Fixpoint mkdirp (fs : gmap Path.t node) (rp : list string) (pending : bool)
  : option errno * gmap Path.t node :=
  match mkdir_attempt fs (rev rp) pending with
  | (Some ENOENT, _) =>
    match rp with
    | [] => (Some EEXIST, fs)
    | _ :: up =>
      match mkdirp fs up true with
      | (None, fs') => mkdir_attempt fs' (rev rp) pending
      | (Some e, fs') => (Some e, fs')
      end
    end
  | r => r
  end.

Definition fs_mkdir (p : Path.t) : prog unit :=
  fs ← get_files;
  let '(r, fs') := mkdirp fs (rev p) false in
  put_files fs';;
  match r with
  | None => emit (EvMkdir p None)
  | Some code => emit (EvMkdir p (Some (FsError code p)));; throw (FsError code p)
  end.

(** [open(p, O_WRONLY | O_CREAT | O_TRUNC)] followed by the write. *)
Definition open_truncate (fs : gmap Path.t node) (p : Path.t) (content : string)
  : errno + gmap Path.t node :=
  if refuses H (CallOpen p) then inl EACCES
  else match enter_error fs (Path.dirname p) with
       | Some code => inl code
       | None =>
         match node_at fs p with
         | Some Dir => inl EISDIR
         | _ => inr (<[p := File content]> fs)
         end
       end.

Definition fs_writeFile (p : Path.t) (content : string) : prog unit :=
  fs ← get_files;
  match open_truncate fs p content with
  | inr fs' => put_files fs';; emit (EvWriteFile p content None)
  | inl code =>
    emit (EvWriteFile p content (Some (FsError code p)));; throw (FsError code p)
  end.

(** [execSync(cmd, { cwd })]: the child runs in [cwd], which must be a
    directory that can be entered; a non-zero exit status is thrown. *)
Definition execSync (cmd : string) (cwd : Path.t) : prog unit :=
  fs ← get_files;
  match enter_error fs cwd with
  | None =>
    let '(status, fs') := subprocess H cmd cwd fs in
    put_files fs';;
    if (status =? 0)%Z then emit (EvExec cmd cwd None)
    else emit (EvExec cmd cwd (Some (ExecError cmd status)));;
         throw (ExecError cmd status)
  | Some code =>
    emit (EvExec cmd cwd (Some (FsError code cwd)));;
    throw (FsError code cwd)
  end.

(** [process.cwd()]: throws when the host cannot name the directory the
    process is in. *)
Definition process_cwd (cwd : Path.t) : prog Path.t :=
  if refuses H CallCwd then throw (FsError ENOENT cwd) else mret cwd.

(** [inquirer.prompt] with one question: the question is shown and the
    answer read; when the host refuses the read, the promise is rejected. *)
Definition prompt (message : string) : prog unit :=
  emit (EvPrompt message);;
  if refuses H (CallPrompt message) then throw (PromptError message) else mret tt.

End Node.

Definition console_log (text : string) : prog unit := emit (EvConsoleLog text).
Definition console_error (label : option string) (e : error) : prog unit :=
  emit (EvConsoleError label e).
Definition spinner (call : spinner_call) (text : string) : prog unit :=
  emit (EvSpinner call text).

(** ** [JSON.stringify] *)

Module JSON.

#[warnings="-register-all"]
Inductive value :=
| Str (s : string)
| Bool (b : bool)
| Object (members : list (string * value)).

Definition BS : string := String (Ascii.Ascii false false true true true false true false) EmptyString.

Definition hex_digit (n : N) : ascii :=
  match n with
  | 0 => "0" | 1 => "1" | 2 => "2" | 3 => "3" | 4 => "4" | 5 => "5" | 6 => "6" | 7 => "7"
  | 8 => "8" | 9 => "9" | 10 => "a" | 11 => "b" | 12 => "c" | 13 => "d" | 14 => "e"
  | _ => "f"
  end%N%char.

(** [UnicodeEscape] of a code unit below 256. *)
Definition unicode_escape (n : N) : string :=
  BS +:+ "u00" +:+ String (hex_digit (n / 16)) (String (hex_digit (n mod 16)) EmptyString).

(** [QuoteJSONString], one character: the text is UTF-8, and the bytes of a
    character above U+007F are copied. *)
Definition quote_char (c : ascii) : string :=
  match N_of_ascii c with
  | 8 => BS +:+ "b"
  | 9 => BS +:+ "t"
  | 10 => BS +:+ "n"
  | 12 => BS +:+ "f"
  | 13 => BS +:+ "r"
  | 34 => BS +:+ DQ
  | 92 => BS +:+ BS
  | n => if (n <? 32)%N then unicode_escape n else String c EmptyString
  end%N.

Fixpoint quote_body (s : string) : string :=
  match s with
  | EmptyString => EmptyString
  | String c r => quote_char c +:+ quote_body r
  end.

Definition quote (s : string) : string := DQ +:+ quote_body s +:+ DQ.

Fixpoint join (sep : string) (parts : list string) : string :=
  match parts with
  | [] => EmptyString
  | [x] => x
  | x :: rest => x +:+ sep +:+ join sep rest
  end.

(** [SerializeJSONProperty] / [SerializeJSONObject] with the current [indent]. *)
Fixpoint serialize (gap indent : string) (v : value) : string :=
  match v with
  | Str s => quote s
  | Bool b => if b then "true" else "false"
  | Object members =>
    let stepback := indent in
    let indent := indent +:+ gap in
    let colon := if String.eqb gap EmptyString then ":" else ": " in
    let partial :=
      map (λ kv, quote (fst kv) +:+ colon +:+ serialize gap indent (snd kv)) members in
    match partial with
    | [] => "{}"
    | _ =>
      if String.eqb gap EmptyString then "{" +:+ join "," partial +:+ "}"
      else "{" +:+ LF +:+ indent +:+ join ("," +:+ LF +:+ indent) partial
           +:+ LF +:+ stepback +:+ "}"
    end
  end.

Fixpoint spaces (n : nat) : string :=
  match n with
  | O => EmptyString
  | S k => " " +:+ spaces k
  end.

(** [JSON.stringify(v, null, space)] for a numeric [space]. *)
Definition stringify (v : value) (space : nat) : string :=
  serialize (spaces (Nat.min 10 space)) EmptyString v.

Fixpoint get (key : string) (members : list (string * value)) : option value :=
  match members with
  | [] => None
  | (k, v) :: rest => if String.eqb k key then Some v else get key rest
  end.

(** Property read [v.key]. *)
Definition field (key : string) (v : value) : option value :=
  match v with
  | Object members => get key members
  | _ => None
  end.

End JSON.

(** ** The script *)

(** The three entries of the template list. *)
Inductive template_choice := DefaultTypeScript | WithTailwind | BasicJavaScript.

Definition template_label (t : template_choice) : string :=
  match t with
  | DefaultTypeScript => "Default Next.js (TypeScript)"
  | WithTailwind => "Next.js with Tailwind CSS"
  | BasicJavaScript => "Basic Next.js (JavaScript)"
  end.

(** What the operator answers: the text typed at the first prompt, the
    entry picked at the second. *)
Record answers := {
  typed : string;
  template : template_choice;
}.

(** The input prompt's [filterInput]: an empty answer is the default. *)
Definition filterInput (default input : string) : string :=
  if String.eqb input EmptyString then default else input.

Definition prompt_input (H : host) (message default : string) (input : string)
  : prog string :=
  prompt H message;; mret (filterInput default input).

Definition prompt_list (H : host) (message : string) (choices : list string)
  (answer : template_choice) : prog template_choice :=
  prompt H message;; mret answer.

(** [projectName]: what the first prompt resolves to. *)
Definition projectName (op : answers) : string :=
  filterInput "my-next-app" (typed op).

(** [chalk] only colours its text. *)
Definition chalk_cyan (text : string) : string := text.
Definition chalk_green (text : string) : string := text.
Definition chalk_red (text : string) : string := text.

(** [figlet.textSync]: the banner is named by the text it draws. *)
Definition figlet_textSync (text : string) : string := text.

Inductive outcome := Succeeded | Failed.

Definition exit_code (o : outcome) : Z :=
  match o with
  | Succeeded => 0
  | Failed => 1
  end.

Definition process_exit (code : Z) : prog outcome :=
  emit (EvExit code);; mret Failed.

Definition packageJson (projectName : string) : JSON.value :=
  JSON.Object [
    ("name", JSON.Str projectName);
    ("version", JSON.Str "0.1.0");
    ("private", JSON.Bool true);
    ("scripts", JSON.Object [
      ("dev", JSON.Str "next dev");
      ("build", JSON.Str "next build");
      ("start", JSON.Str "next start");
      ("lint", JSON.Str "next lint")]);
    ("dependencies", JSON.Object [
      ("next", JSON.Str "14.1.0");
      ("react", JSON.Str "^18.2.0");
      ("react-dom", JSON.Str "^18.2.0")]);
    ("devDependencies", JSON.Object [
      ("@types/node", JSON.Str "^20.11.0");
      ("@types/react", JSON.Str "^18.2.0");
      ("@types/react-dom", JSON.Str "^18.2.0");
      ("typescript", JSON.Str "^5.3.0");
      ("eslint", JSON.Str "^8.56.0");
      ("eslint-config-next", JSON.Str "14.1.0")])
  ].

Definition directories : list string :=
  ["public"; "src/app"; "src/components"; "src/styles"].

Definition layoutContent : string := unlines [
  EmptyString;
  "export default function RootLayout({";
  "  children,";
  "}: {";
  "  children: React.ReactNode";
  "}) {";
  "  return (";
  "    <html lang=" +:+ DQ +:+ "en" +:+ DQ +:+ ">";
  "      <body>{children}</body>";
  "    </html>";
  "  )";
  "}"].

Definition pageContent : string := unlines [
  EmptyString;
  "export default function Home() {";
  "  return (";
  "    <main>";
  "      <h1>Welcome to Next.js!</h1>";
  "    </main>";
  "  )";
  "}"].

Definition globalCssContent : string := unlines [
  EmptyString;
  "* {";
  "  box-sizing: border-box;";
  "  padding: 0;";
  "  margin: 0;";
  "}";
  EmptyString;
  "html,";
  "body {";
  "  max-width: 100vw;";
  "  overflow-x: hidden;";
  "}"].

Definition gitignoreContent : string := unlines [
  EmptyString;
  "# dependencies";
  "/node_modules";
  "/.pnp";
  ".pnp.js";
  EmptyString;
  "# testing";
  "/coverage";
  EmptyString;
  "# next.js";
  "/.next/";
  "/out/";
  EmptyString;
  "# production";
  "/build";
  EmptyString;
  "# misc";
  ".DS_Store";
  "*.pem";
  EmptyString;
  "# debug";
  "npm-debug.log*";
  "yarn-debug.log*";
  "yarn-error.log*";
  EmptyString;
  "# local env files";
  ".env*.local";
  EmptyString;
  "# vercel";
  ".vercel";
  EmptyString;
  "# typescript";
  "*.tsbuildinfo";
  "next-env.d.ts"].

(** The success message, for the texts of the name and of the path. *)
Definition successMessage (projectName : string) (projectPath : string) : string :=
  unlines [
    EmptyString;
    "Success! Created " +:+ projectName +:+ " at " +:+ projectPath;
    EmptyString;
    "To get started, run:";
    "  " +:+ chalk_cyan ("cd " +:+ projectName);
    "  " +:+ chalk_cyan "npm run dev";
    "        "].

Section Script.
Context (H : host).

Definition createProjectDirectory (projectPath : Path.t) : prog bool :=
  try_catch
    (fs_mkdir H projectPath;; mret true)
    (λ error, console_error (Some "Error creating directory:") error;; mret false).

Definition createPackageJson (projectPath : Path.t) (projectName : string) : prog unit :=
  fs_writeFile H (Path.join projectPath "package.json")
    (JSON.stringify (packageJson projectName) 2).

Definition createProjectFiles (projectPath : Path.t) : prog unit :=
  for_each directories (λ dir, fs_mkdir H (Path.join projectPath dir));;
  fs_writeFile H (Path.join projectPath "src/app/layout.tsx") layoutContent;;
  fs_writeFile H (Path.join projectPath "src/app/page.tsx") pageContent;;
  fs_writeFile H (Path.join projectPath "src/styles/globals.css") globalCssContent.

Definition initializeGit (projectPath : Path.t) : prog unit :=
  try_catch
    (execSync H "git init" projectPath;;
     fs_writeFile H (Path.join projectPath ".gitignore") gitignoreContent)
    (λ error, console_error (Some "Error initializing git:") error).

(** The [try] block of the command.  [projectPath] is used as the place of
    the calls, and in the success message as the text [shown]. *)
Definition scaffold (projectName : string) (projectPath : Path.t) (shown : string)
  : prog outcome :=
  createProjectDirectory projectPath;;
  createPackageJson projectPath projectName;;
  createProjectFiles projectPath;;
  initializeGit projectPath;;
  spinner SpinText "Installing dependencies...";;
  execSync H "npm install" projectPath;;
  spinner SpinSucceed (chalk_green (successMessage projectName shown));;
  mret Succeeded.

(** [program.action]: [cwd] is the directory the process is in, [op] what
    the operator answers.  The prompts are awaited, and [process.cwd()] is
    called, before the [try]: what they throw is not caught. *)
Definition action (cwd : Path.t) (op : answers) : prog outcome :=
  console_log (chalk_cyan (figlet_textSync "Set My Stack"));;
  projectName ← prompt_input H "What is your project named?" "my-next-app" (typed op);
  template ← prompt_list H "Choose your template"
    (map template_label [DefaultTypeScript; WithTailwind; BasicJavaScript]) (template op);
  spinner SpinStart "Creating your Next.js app...";;
  here ← process_cwd H cwd;
  let projectPath := Path.join here projectName in
  try_catch
    (scaffold projectName projectPath (Path.join_text here projectName))
    (λ error,
       spinner SpinFail (chalk_red "Failed to create project");;
       console_error None error;;
       process_exit 1).

End Script.

(** A run from a tree, with nothing printed yet. *)
Definition start (fs : gmap Path.t node) : world := {| files := fs; trace := [] |}.

Definition run (H : host) (cwd : Path.t) (op : answers) (fs : gmap Path.t node)
  : completion outcome * world :=
  action H cwd op (start fs).

(** ** Reading JSON text back

    What a written manifest denotes is said with a reader of JSON text
    (RFC 8259, for the values above): [parse] is [JSON.parse]. *)

Module JSONRead.
Import JSON.

Definition dq : ascii := Ascii.Ascii false true false false false true false false.
Definition bs : ascii := Ascii.Ascii false false true true true false true false.

Definition is_ws (c : ascii) : bool :=
  Ascii.eqb c " " || Ascii.eqb c (ascii_of_N 10) || Ascii.eqb c (ascii_of_N 13)
  || Ascii.eqb c (ascii_of_N 9).

Fixpoint skip_ws (s : string) : string :=
  match s with
  | String c r => if is_ws c then skip_ws r else s
  | EmptyString => s
  end.

(** The text after the token [c]. *)
Definition expect (c : ascii) (s : string) : option string :=
  match skip_ws s with
  | String d r => if Ascii.eqb c d then Some r else None
  | EmptyString => None
  end.

Definition unhex (c : ascii) : option N :=
  let n := N_of_ascii c in
  if (48 <=? n)%N && (n <=? 57)%N then Some (n - 48)%N
  else if (97 <=? n)%N && (n <=? 102)%N then Some (n - 87)%N
  else if (65 <=? n)%N && (n <=? 70)%N then Some (n - 55)%N
  else None.

(** The character of [\uXXXX], when it is one byte of UTF-8. *)
Definition read_unicode (h1 h2 h3 h4 : ascii) : option ascii :=
  a ← unhex h1; b ← unhex h2; c ← unhex h3; d ← unhex h4;
  let n := (((a * 16 + b) * 16 + c) * 16 + d)%N in
  if (n <? 128)%N then Some (ascii_of_N n) else None.

Definition cons_char (c : ascii) (r : option (string * string)) : option (string * string) :=
  '(s, rest) ← r; Some (String c s, rest).

(** The character an escape letter stands for. *)
Definition unescape (e : ascii) : option ascii :=
  if Ascii.eqb e "b" then Some (ascii_of_N 8)
  else if Ascii.eqb e "t" then Some (ascii_of_N 9)
  else if Ascii.eqb e "n" then Some (ascii_of_N 10)
  else if Ascii.eqb e "f" then Some (ascii_of_N 12)
  else if Ascii.eqb e "r" then Some (ascii_of_N 13)
  else if Ascii.eqb e dq || Ascii.eqb e bs || Ascii.eqb e "/" then Some e
  else None.

(** The characters of a string literal after its opening quote, and the text
    after its closing quote. *)
Fixpoint read_string (s : string) : option (string * string) :=
  match s with
  | EmptyString => None
  | String c r =>
    if Ascii.eqb c dq then Some (EmptyString, r)
    else if Ascii.eqb c bs then
      match r with
      | String e r' =>
        if Ascii.eqb e "u" then
          match r' with
          | String h1 (String h2 (String h3 (String h4 r''))) =>
            match read_unicode h1 h2 h3 h4 with
            | Some u => cons_char u (read_string r'')
            | None => None
            end
          | _ => None
          end
        else match unescape e with
             | Some u => cons_char u (read_string r')
             | None => None
             end
      | EmptyString => None
      end
    else if (N_of_ascii c <? 32)%N then None
    else cons_char c (read_string r)
  end.

Fixpoint strip_prefix (p s : string) : option string :=
  match p, s with
  | EmptyString, _ => Some s
  | String a p', String b s' => if Ascii.eqb a b then strip_prefix p' s' else None
  | _, _ => None
  end.

Fixpoint read_value (fuel : nat) (s : string) : option (value * string) :=
  match fuel with
  | O => None
  | S fuel =>
    match skip_ws s with
    | String c r =>
      if Ascii.eqb c dq then '(text, rest) ← read_string r; Some (Str text, rest)
      else if Ascii.eqb c "{" then
        match expect "}" r with
        | Some rest => Some (Object [], rest)
        | None => '(ms, rest) ← read_members fuel r; Some (Object ms, rest)
        end
      else if Ascii.eqb c "t" then rest ← strip_prefix "rue" r; Some (Bool true, rest)
      else if Ascii.eqb c "f" then rest ← strip_prefix "alse" r; Some (Bool false, rest)
      else None
    | EmptyString => None
    end
  end
with read_members (fuel : nat) (s : string) : option (list (string * value) * string) :=
  match fuel with
  | O => None
  | S fuel =>
    r ← expect dq s;
    '(key, r1) ← read_string r;
    r2 ← expect ":" r1;
    '(v, r3) ← read_value fuel r2;
    match expect "," r3 with
    | Some r4 => '(ms, r5) ← read_members fuel r4; Some ((key, v) :: ms, r5)
    | None => r4 ← expect "}" r3; Some ([(key, v)], r4)
    end
  end.

(** [JSON.parse]: one value, and nothing but white space after it. *)
Definition parse (s : string) : option value :=
  '(v, rest) ← read_value (String.length s) s;
  match skip_ws rest with
  | EmptyString => Some v
  | _ => None
  end.

(** Text that [skip_ws] passes over. *)
Definition blank (s : string) : Prop := ∀ r, skip_ws (s +:+ r) = skip_ws r.

(** How much fuel reading a value takes. *)
Fixpoint weight (v : value) : nat :=
  match v with
  | Object members => S (list_sum (map (λ kv, S (weight (snd kv))) members))
  | _ => 1
  end.

Definition members_weight (ms : list (string * value)) : nat :=
  list_sum (map (λ kv, S (weight (snd kv))) ms).

Section Layout.
Context (gap : string).

(** White space around the members of an object, and after a colon. *)
Definition lead (indent : string) : string :=
  if String.eqb gap EmptyString then EmptyString else LF +:+ indent +:+ gap.
Definition trail (indent : string) : string :=
  if String.eqb gap EmptyString then EmptyString else LF +:+ indent.
Definition after_colon : string :=
  if String.eqb gap EmptyString then EmptyString else " ".

Definition member_texts (indent : string) (ms : list (string * value)) : list string :=
  map (λ kv, quote (fst kv) +:+ ":" +:+ after_colon +:+ serialize gap (indent +:+ gap) (snd kv)) ms.

Definition reads_values (n : nat) : Prop :=
  ∀ v indent pre rest, (weight v ≤ n)%nat → blank indent → blank pre →
    read_value n (pre +:+ serialize gap indent v +:+ rest) = Some (v, rest).

Definition reads_members (n : nat) : Prop :=
  ∀ ms indent rest, ms ≠ [] → (members_weight ms ≤ n)%nat → blank indent →
    read_members n
      (lead indent +:+ join ("," +:+ lead indent) (member_texts indent ms)
       +:+ trail indent +:+ String "}" rest)
    = Some (ms, rest).

End Layout.

End JSONRead.

(** ** Vocabulary of the statements *)

(** A host whose subprocesses only add to the tree. *)
Definition gentle (H : host) : Prop :=
  ∀ cmd cwd fs, fs ⊆ (subprocess H cmd cwd fs).2.

(** A host whose subprocesses remove no entry. *)
Definition keeps_entries (H : host) : Prop :=
  ∀ cmd cwd fs p, is_Some (fs !! p) → is_Some ((subprocess H cmd cwd fs).2 !! p).

(** A host that refuses no file-system call and whose subprocesses exit 0. *)
Definition obliging (H : host) : Prop :=
  (∀ c, refuses H c = false) ∧ (∀ cmd cwd fs, (subprocess H cmd cwd fs).1 = 0%Z).

(** [p] was made by a call recorded in [tr]. *)
Definition made (p : Path.t) (tr : list event) : Prop :=
  EvMkdir p None ∈ tr ∨ ∃ content, EvWriteFile p content None ∈ tr.

Definition present (fs : gmap Path.t node) (p : Path.t) : Prop :=
  is_Some (node_at fs p).

(** Every entry the trace says was made is in the tree. *)
Definition nothing_lost (w : world) : Prop :=
  ∀ p, made p (trace w) → present (files w) p.

(** Events that record no new entry. *)
Definition makes_nothing (ev : event) : Prop :=
  match ev with
  | EvMkdir _ None | EvWriteFile _ _ None => False
  | _ => True
  end.

(** What was in [fs0], and what the trace says was made, is in the tree. *)
Definition intact (fs0 : gmap Path.t node) (w : world) : Prop :=
  nothing_lost w ∧ ∀ p, present fs0 p → present (files w) p.

(** The tree holds the project under [t]: the manifest of [name], the four
    directories and the three source files. *)
Definition scaffolded (fs : gmap Path.t node) (t : Path.t) (name : string) : Prop :=
  is_dir fs t = true
  ∧ fs !! (t ++ ["package.json"]) = Some (File (JSON.stringify (packageJson name) 2))
  ∧ is_dir fs (t ++ ["public"]) = true
  ∧ is_dir fs (t ++ ["src"; "app"]) = true
  ∧ is_dir fs (t ++ ["src"; "components"]) = true
  ∧ is_dir fs (t ++ ["src"; "styles"]) = true
  ∧ fs !! (t ++ ["src"; "app"; "layout.tsx"]) = Some (File layoutContent)
  ∧ fs !! (t ++ ["src"; "app"; "page.tsx"]) = Some (File pageContent)
  ∧ fs !! (t ++ ["src"; "styles"; "globals.css"]) = Some (File globalCssContent).

(** The tree has the directories of the project under [t] already, and no
    directory where the script writes a file. *)
Definition collides (fs : gmap Path.t node) (t : Path.t) : Prop :=
  is_dir fs t = true
  ∧ is_dir fs (t ++ ["public"]) = true
  ∧ is_dir fs (t ++ ["src"; "app"]) = true
  ∧ is_dir fs (t ++ ["src"; "components"]) = true
  ∧ is_dir fs (t ++ ["src"; "styles"]) = true
  ∧ is_dir fs (t ++ ["package.json"]) = false
  ∧ is_dir fs (t ++ ["src"; "app"; "layout.tsx"]) = false
  ∧ is_dir fs (t ++ ["src"; "app"; "page.tsx"]) = false
  ∧ is_dir fs (t ++ ["src"; "styles"; "globals.css"]) = false.

(** [b] comes right after [a] in [tr]. *)
Definition follows (a b : event) (tr : list event) : Prop :=
  ∃ pre post, tr = pre ++ a :: b :: post.

(** The paths the script writes a file to, under [t]. *)
Definition written_paths (t : Path.t) : list Path.t :=
  [t ++ ["package.json"]; t ++ ["src"; "app"; "layout.tsx"]; t ++ ["src"; "app"; "page.tsx"];
   t ++ ["src"; "styles"; "globals.css"]; t ++ [".gitignore"]].

Definition is_exec (ev : event) : bool :=
  match ev with
  | EvExec _ _ _ => true
  | _ => false
  end.

Definition is_mkdir (ev : event) : bool :=
  match ev with
  | EvMkdir _ _ => true
  | _ => false
  end.

Definition is_write (ev : event) : bool :=
  match ev with
  | EvWriteFile _ _ _ => true
  | _ => false
  end.

Definition is_prompt (ev : event) : bool :=
  match ev with
  | EvPrompt _ => true
  | _ => false
  end.

(** [I] survives whatever [m] does, however it completes. *)
Definition preserved {A} (I : world → Prop) (m : prog A) : Prop :=
  ∀ w, I w → I (m w).2.

(** *** Hosts and trees to run the script on *)

Definition calm : host :=
  {| refuses := λ _, false; subprocess := λ _ _ fs, (0%Z, fs) |}.

(** No [git] on the search path: the shell exits 127. *)
Definition without_git : host :=
  {| refuses := λ _, false;
     subprocess := λ cmd _ fs, (if String.eqb cmd "git init" then 127%Z else 0%Z, fs) |}.

(** The registry cannot be reached: [npm install] exits 1. *)
Definition offline : host :=
  {| refuses := λ _, false;
     subprocess := λ cmd _ fs, (if String.eqb cmd "npm install" then 1%Z else 0%Z, fs) |}.

(** [mkdir] of [p] is refused, and nothing else. *)
Definition locked (p : Path.t) : host :=
  {| refuses := λ c, match c with
                     | CallMkdir q => bool_decide (q = p)
                     | _ => false
                     end;
     subprocess := λ _ _ fs, (0%Z, fs) |}.

Definition home : gmap Path.t node := {[ ["home"] := Dir ]}.

(** [/home/app] is there already, with a file of its own. *)
Definition home_with_app : gmap Path.t node :=
  <[ ["home"; "app"; "notes.txt"] := File "keep" ]> (<[ ["home"; "app"] := Dir ]> home).

Definition app_request (t : template_choice) : answers :=
  {| typed := "app"; template := t |}.

(** ** Further vocabulary *)

(** A host whose subprocesses leave the tree as it is. *)
Definition inert (H : host) : Prop :=
  ∀ cmd cwd fs, (subprocess H cmd cwd fs).2 = fs.

(** A call to the file system or to a subprocess, without its result. *)
Inductive call :=
| Mkdir (p : Path.t)
| WriteFile (p : Path.t) (content : string)
| Exec (cmd : string) (cwd : Path.t).

Definition call_of (ev : event) : option call :=
  match ev with
  | EvMkdir p _ => Some (Mkdir p)
  | EvWriteFile p content _ => Some (WriteFile p content)
  | EvExec cmd cwd _ => Some (Exec cmd cwd)
  | _ => None
  end.

Definition calls (tr : list event) : list call := omap call_of tr.

(** The calls of the script for the project [name] at [t], in the order of
    the source. *)
Definition steps (name : string) (t : Path.t) : list call :=
  [Mkdir t;
   WriteFile (t ++ ["package.json"]) (JSON.stringify (packageJson name) 2);
   Mkdir (t ++ ["public"]);
   Mkdir (t ++ ["src"; "app"]);
   Mkdir (t ++ ["src"; "components"]);
   Mkdir (t ++ ["src"; "styles"]);
   WriteFile (t ++ ["src"; "app"; "layout.tsx"]) layoutContent;
   WriteFile (t ++ ["src"; "app"; "page.tsx"]) pageContent;
   WriteFile (t ++ ["src"; "styles"; "globals.css"]) globalCssContent;
   Exec "git init" t;
   WriteFile (t ++ [".gitignore"]) gitignoreContent;
   Exec "npm install" t].

(** A failed call that no function of the script catches: any but the
    [mkdir] of the project directory and the two calls of [initializeGit]. *)
Definition uncaught (t : Path.t) (ev : event) (e : error) : Prop :=
  match ev with
  | EvMkdir p (Some e') => e' = e ∧ p ≠ t
  | EvWriteFile p _ (Some e') => e' = e ∧ p ≠ t ++ [".gitignore"]
  | EvExec cmd _ (Some e') => e' = e ∧ cmd = "npm install"
  | _ => False
  end.

(** The entries of a project under [t]. *)
Definition project_paths (t : Path.t) : list Path.t :=
  [t ++ ["package.json"]; t ++ ["public"]; t ++ ["src"]; t ++ ["src"; "app"];
   t ++ ["src"; "components"]; t ++ ["src"; "styles"];
   t ++ ["src"; "app"; "layout.tsx"]; t ++ ["src"; "app"; "page.tsx"];
   t ++ ["src"; "styles"; "globals.css"]; t ++ [".gitignore"]].

(** What a run on a fresh name leaves, on a host whose subprocesses leave
    the tree alone. *)
Definition fresh_tree (name : string) (t : Path.t) (fs : gmap Path.t node)
  : gmap Path.t node :=
  <[t ++ [".gitignore"] := File gitignoreContent]>
    (<[t ++ ["src"; "styles"; "globals.css"] := File globalCssContent]>
       (<[t ++ ["src"; "app"; "page.tsx"] := File pageContent]>
          (<[t ++ ["src"; "app"; "layout.tsx"] := File layoutContent]>
             (<[t ++ ["src"; "styles"] := Dir]>
                (<[t ++ ["src"; "components"] := Dir]>
                   (<[t ++ ["src"; "app"] := Dir]>
                      (<[t ++ ["src"] := Dir]>
                         (<[t ++ ["public"] := Dir]>
                            (<[t ++ ["package.json"]
                               := File (JSON.stringify (packageJson name) 2)]>
                               (<[t := Dir]> fs)))))))))).

(** How a run that fails ends. *)
Definition failure_report (e : error) : list event :=
  [EvSpinner SpinFail (chalk_red "Failed to create project"); EvConsoleError None e; EvExit 1].

(** How every run begins. *)
Definition opening : list event :=
  [EvConsoleLog (chalk_cyan (figlet_textSync "Set My Stack"));
   EvPrompt "What is your project named?";
   EvPrompt "Choose your template";
   EvSpinner SpinStart "Creating your Next.js app..."].

(** The events of a run in which every call returns, for the project [name]
    at [t], with [shown] as the text of the path. *)
Definition clean_events (name : string) (t : Path.t) (shown : string) : list event :=
  opening ++
  [EvMkdir t None;
   EvWriteFile (t ++ ["package.json"]) (JSON.stringify (packageJson name) 2) None;
   EvMkdir (t ++ ["public"]) None;
   EvMkdir (t ++ ["src"; "app"]) None;
   EvMkdir (t ++ ["src"; "components"]) None;
   EvMkdir (t ++ ["src"; "styles"]) None;
   EvWriteFile (t ++ ["src"; "app"; "layout.tsx"]) layoutContent None;
   EvWriteFile (t ++ ["src"; "app"; "page.tsx"]) pageContent None;
   EvWriteFile (t ++ ["src"; "styles"; "globals.css"]) globalCssContent None;
   EvExec "git init" t None;
   EvWriteFile (t ++ [".gitignore"]) gitignoreContent None;
   EvSpinner SpinText "Installing dependencies...";
   EvExec "npm install" t None;
   EvSpinner SpinSucceed (chalk_green (successMessage name shown))].

(** The same, for a path whose text has no trailing separator. *)
Definition clean_trace (name : string) (t : Path.t) : list event :=
  clean_events name t (Path.to_string t).

Definition is_console_error (ev : event) : bool :=
  match ev with
  | EvConsoleError _ _ => true
  | _ => false
  end.

Definition is_exit (ev : event) : bool :=
  match ev with
  | EvExit _ => true
  | _ => false
  end.

(** [/home/app] is there, and [src] in it is a file. *)
Definition home_with_src_file : gmap Path.t node :=
  <[ ["home"; "app"; "src"] := File "notes" ]> (<[ ["home"; "app"] := Dir ]> home).


(** * Facts

    ** [JSON.parse] after [JSON.stringify] *)

Module JSONFacts.
Import JSON JSONRead.

Lemma append_cons x a b : String x a +:+ b = String x (a +:+ b).
Proof. reflexivity. Qed.

Lemma append_empty b : EmptyString +:+ b = b.
Proof. reflexivity. Qed.

Lemma append_assoc a b c : (a +:+ b) +:+ c = a +:+ b +:+ c.
Proof. induction a as [|x a IH]; [done|]. by rewrite !append_cons, IH. Qed.

Lemma length_append a b : String.length (a +:+ b) = String.length a + String.length b.
Proof. induction a as [|x a IH]; [done|]. rewrite append_cons. simpl. by rewrite IH. Qed.

Ltac flatten := repeat first [rewrite append_assoc | rewrite append_cons | rewrite append_empty].

Lemma read_quote_char c q r :
  read_string ((quote_char c +:+ q) +:+ r) = cons_char c (read_string (q +:+ r)).
Proof. destruct c as [[] [] [] [] [] [] [] []]; reflexivity. Qed.

Lemma read_string_quote s : ∀ rest,
  read_string (quote_body s +:+ String dq rest) = Some (s, rest).
Proof.
  induction s as [|c s IH]; intros rest; [reflexivity|].
  change (quote_body (String c s)) with (quote_char c +:+ quote_body s).
  by rewrite read_quote_char, IH.
Qed.

Lemma blank_empty : blank EmptyString.
Proof. by intros r. Qed.

Lemma blank_spaces n : blank (spaces n).
Proof. induction n as [|n IH]; intros r; [done|]. apply IH. Qed.

Lemma blank_app a b : blank a → blank b → blank (a +:+ b).
Proof. intros Ha Hb r. by rewrite append_assoc, Ha, Hb. Qed.

Lemma blank_cons c a : is_ws c = true → blank a → blank (String c a).
Proof. intros Hc Ha r. rewrite append_cons. simpl. by rewrite Hc. Qed.

Lemma skip_ws_stop c r : is_ws c = false → skip_ws (String c r) = String c r.
Proof. intros Hc. simpl. by rewrite Hc. Qed.

Lemma expect_hit c pre r :
  blank pre → is_ws c = false → expect c (pre +:+ String c r) = Some r.
Proof.
  intros Hpre Hc. unfold expect. rewrite Hpre, skip_ws_stop by done.
  by rewrite Ascii.eqb_refl.
Qed.

Lemma expect_miss c d pre r :
  blank pre → is_ws d = false → Ascii.eqb c d = false → expect c (pre +:+ String d r) = None.
Proof.
  intros Hpre Hd Hcd. unfold expect. rewrite Hpre, skip_ws_stop by done. by rewrite Hcd.
Qed.

Lemma expect_here c r : is_ws c = false → expect c (String c r) = Some r.
Proof. intros Hc. by apply (expect_hit c EmptyString); [apply blank_empty|]. Qed.

Section RoundTrip.
Context (gap : string) (gap_blank : blank gap).

Local Abbreviation lead := (lead gap).
Local Abbreviation trail := (trail gap).
Local Abbreviation after_colon := (after_colon gap).
Local Abbreviation member_texts := (member_texts gap).
Local Abbreviation reads_values := (reads_values gap).
Local Abbreviation reads_members := (reads_members gap).

Lemma serialize_object indent m ms :
  serialize gap indent (Object (m :: ms)) =
  "{" +:+ lead indent +:+ join ("," +:+ lead indent) (member_texts indent (m :: ms))
  +:+ trail indent +:+ "}".
Proof.
  unfold lead, trail, member_texts, after_colon. simpl.
  destruct (String.eqb gap EmptyString); flatten; reflexivity.
Qed.

Lemma blank_lead indent : blank indent → blank (lead indent).
Proof.
  intros Hi. unfold lead. destruct (String.eqb gap EmptyString); [apply blank_empty|].
  apply blank_cons; [done|]. by apply blank_app.
Qed.

Lemma blank_trail indent : blank indent → blank (trail indent).
Proof.
  intros Hi. unfold trail. destruct (String.eqb gap EmptyString); [apply blank_empty|].
  by apply blank_cons.
Qed.

Lemma blank_after_colon : blank after_colon.
Proof.
  unfold after_colon. destruct (String.eqb gap EmptyString); [apply blank_empty|].
  apply blank_cons; [done|apply blank_empty].
Qed.

Lemma read_value_blank n pre s : blank pre → read_value n (pre +:+ s) = read_value n (skip_ws s).
Proof.
  intros Hpre. destruct n; [done|]. simpl. rewrite Hpre.
  assert (skip_ws (skip_ws s) = skip_ws s) as ->; [|done].
  induction s as [|c s IH]; [done|]. simpl. destruct (is_ws c) eqn:E; [done|].
  simpl. by rewrite E.
Qed.

Lemma read_value_quote n r :
  read_value (S n) (String dq r) = '(text, rest) ← read_string r; Some (Str text, rest).
Proof. reflexivity. Qed.

Lemma read_value_open n r :
  read_value (S n) (String "{" r) =
  match expect "}" r with
  | Some rest => Some (Object [], rest)
  | None => '(ms, rest) ← read_members n r; Some (Object ms, rest)
  end.
Proof. reflexivity. Qed.

Lemma reads_members_step n : reads_values n → reads_members n → reads_members (S n).
Proof.
  intros Hv Hm [|[key v] ms] indent rest Hne Hw Hi; [done|].
  unfold members_weight in Hw; simpl in Hw; fold (members_weight ms) in Hw.
  pose proof (blank_lead indent Hi) as Hl. pose proof (blank_trail indent Hi) as Ht.
  pose proof blank_after_colon as Hc.
  assert (blank (indent +:+ gap)) as Hig by by apply blank_app.
  destruct ms as [|m ms].
  - cbn [member_texts map join fst snd]. unfold quote, DQ. flatten.
    cbn [read_members]. rewrite expect_hit by done. cbn [mbind option_bind].
    rewrite read_string_quote. cbn [mbind option_bind].
    rewrite expect_here by done. cbn [mbind option_bind].
    rewrite Hv by (done || lia). cbn [mbind option_bind].
    rewrite expect_miss, expect_hit by done. reflexivity.
  - change (member_texts indent ((key, v) :: m :: ms)) with
      ((quote key +:+ ":" +:+ after_colon +:+ serialize gap (indent +:+ gap) v)
       :: member_texts indent (m :: ms)).
    change (join ?sep (?x :: member_texts indent (m :: ms)))
      with (x +:+ sep +:+ join sep (member_texts indent (m :: ms))).
    unfold quote, DQ. flatten.
    cbn [read_members]. rewrite expect_hit by done. cbn [mbind option_bind].
    rewrite read_string_quote. cbn [mbind option_bind].
    rewrite expect_here by done. cbn [mbind option_bind].
    rewrite Hv by (done || lia). cbn [mbind option_bind].
    rewrite expect_here by done.
    rewrite Hm; [done|done| |done].
    unfold members_weight in *. simpl in *. lia.
Qed.

Lemma weight_pos v : (1 ≤ weight v)%nat.
Proof. destruct v; simpl; lia. Qed.

Lemma reads_values_step n : reads_members n → reads_values (S n).
Proof.
  intros Hm v indent pre rest Hw Hi Hpre.
  rewrite read_value_blank by done.
  destruct v as [s|b|[|m ms]].
  - unfold serialize, quote, DQ. flatten. rewrite skip_ws_stop, read_value_quote by done.
    by rewrite read_string_quote.
  - destruct b; reflexivity.
  - reflexivity.
  - rewrite serialize_object. flatten.
    pose proof (blank_lead indent Hi) as Hl.
    assert (∃ c r, is_ws c = false ∧ Ascii.eqb "}" c = false ∧
      join ("," +:+ lead indent) (member_texts indent (m :: ms)) = String c r)
      as (c & r & Hc & Hne & Hj).
    { exists dq. destruct ms; cbn [member_texts map join fst]; unfold quote, DQ; flatten; eauto. }
    rewrite skip_ws_stop, read_value_open by done.
    rewrite Hj at 1. flatten. rewrite expect_miss by done.
    rewrite Hm; [done|done| |done].
    simpl in Hw. unfold members_weight. simpl. lia.
Qed.

Lemma reads_all n : reads_values n ∧ reads_members n.
Proof.
  induction n as [|n [IHv IHm]].
  - split.
    + intros v ? ? ? Hw. pose proof (weight_pos v). lia.
    + intros [|[k v] ms] ? ? Hne Hw; [done|]. unfold members_weight in Hw. simpl in Hw. lia.
  - split; [by apply reads_values_step|by apply reads_members_step].
Qed.

Lemma join_more sep x ys : ys ≠ [] → join sep (x :: ys) = x +:+ sep +:+ join sep ys.
Proof. by destruct ys. Qed.

Lemma members_length n indent sep :
  (∀ v, (weight v ≤ n)%nat →
        (weight v ≤ String.length (serialize gap (indent +:+ gap) v))%nat) →
  ∀ ms, (members_weight ms ≤ n)%nat →
        (members_weight ms ≤ String.length (join sep (member_texts indent ms)))%nat.
Proof.
  intros IH ms. induction ms as [|[k v] ms IHms]; intros Hw; [done|].
  unfold members_weight in *. simpl in Hw.
  specialize (IH v ltac:(lia)).
  destruct ms as [|m ms].
  - cbn [member_texts map join list_sum fst snd]. unfold quote.
    rewrite !length_append. simpl. lia.
  - specialize (IHms ltac:(lia)).
    change (member_texts indent ((k, v) :: m :: ms)) with
      ((quote k +:+ ":" +:+ after_colon +:+ serialize gap (indent +:+ gap) v)
       :: member_texts indent (m :: ms)).
    rewrite join_more by done.
    change (list_sum (map ?f ((k, v) :: m :: ms)))
      with (S (weight v) + list_sum (map f (m :: ms))).
    clear Hw. revert IHms.
    generalize (join sep (member_texts indent (m :: ms))) as text.
    generalize (list_sum (map (λ kv : string * value, S (weight kv.2)) (m :: ms))) as w.
    intros w text Hle. unfold quote. rewrite !length_append. simpl. lia.
Qed.

Lemma weight_le_length : ∀ n v indent, (weight v ≤ n)%nat →
  (weight v ≤ String.length (serialize gap indent v))%nat.
Proof.
  induction n as [|n IH]; intros v indent Hw; [pose proof (weight_pos v); lia|].
  destruct v as [s|[]|[|m ms]]; [unfold serialize, quote; rewrite !length_append|..];
    [simpl; lia..|].
  rewrite serialize_object, !length_append.
  change (weight (Object (m :: ms))) with (S (members_weight (m :: ms))) in *.
  pose proof (members_length n indent ("," +:+ lead indent) (λ v, IH v _) (m :: ms)
                ltac:(lia)).
  change (String.length "{") with 1. lia.
Qed.

End RoundTrip.

(** The text [JSON.stringify] writes reads back as the value. *)
Lemma parse_stringify v space : parse (stringify v space) = Some v.
Proof.
  unfold parse, stringify. set (gap := spaces _).
  assert (blank gap) as Hg by apply blank_spaces.
  destruct (reads_all gap Hg (String.length (serialize gap EmptyString v))) as [Hv _].
  specialize (Hv v EmptyString EmptyString EmptyString).
  rewrite append_empty in Hv.
  assert (∀ s, s +:+ EmptyString = s) as Hnil.
  { induction s as [|c s IH]; [done|]. by rewrite append_cons, IH. }
  rewrite Hnil in Hv. rewrite Hv; [done| |apply blank_empty..].
  eapply weight_le_length. done. 
Qed.

End JSONFacts.

(** ** Paths *)

Lemma split_plain s :
  existsb Path.is_slash (list_ascii_of_string s) = false → Path.split s = [s].
Proof.
  induction s as [|c s IH]; [done|]. simpl.
  destruct (Path.is_slash c); [done|]. simpl. intros Hs. by rewrite IH.
Qed.

Lemma join_plain p s : Path.plain_segment s = true → Path.join p s = p ++ [s].
Proof.
  unfold Path.plain_segment, Path.join. rewrite !andb_true_iff, !negb_true_iff.
  intros [[[H1 H2] H3] H4]. rewrite split_plain by done. simpl.
  unfold Path.step. by rewrite H1, H2, H3.
Qed.

Lemma join_empty p : Path.join p EmptyString = p.
Proof. reflexivity. Qed.

Lemma join_package_json p : Path.join p "package.json" = p ++ ["package.json"].
Proof. reflexivity. Qed.
Lemma join_public p : Path.join p "public" = p ++ ["public"].
Proof. reflexivity. Qed.
Lemma join_src_app p : Path.join p "src/app" = p ++ ["src"; "app"].
Proof. unfold Path.join. simpl. unfold Path.step. simpl. by rewrite <- app_assoc. Qed.
Lemma join_src_components p : Path.join p "src/components" = p ++ ["src"; "components"].
Proof. unfold Path.join. simpl. unfold Path.step. simpl. by rewrite <- app_assoc. Qed.
Lemma join_src_styles p : Path.join p "src/styles" = p ++ ["src"; "styles"].
Proof. unfold Path.join. simpl. unfold Path.step. simpl. by rewrite <- app_assoc. Qed.
Lemma join_layout p : Path.join p "src/app/layout.tsx" = p ++ ["src"; "app"; "layout.tsx"].
Proof. unfold Path.join. simpl. unfold Path.step. simpl. by rewrite <- !app_assoc. Qed.
Lemma join_page p : Path.join p "src/app/page.tsx" = p ++ ["src"; "app"; "page.tsx"].
Proof. unfold Path.join. simpl. unfold Path.step. simpl. by rewrite <- !app_assoc. Qed.
Lemma join_globals p : Path.join p "src/styles/globals.css" = p ++ ["src"; "styles"; "globals.css"].
Proof. unfold Path.join. simpl. unfold Path.step. simpl. by rewrite <- !app_assoc. Qed.
Lemma join_gitignore p : Path.join p ".gitignore" = p ++ [".gitignore"].
Proof. reflexivity. Qed.

Lemma dirname_snoc p seg : Path.dirname (p ++ [seg]) = p.
Proof. apply removelast_last. Qed.

Lemma dirname_snoc2 p a b : Path.dirname (p ++ [a; b]) = p ++ [a].
Proof. change (p ++ [a; b]) with (p ++ [a] ++ [b]). rewrite app_assoc. apply removelast_last. Qed.

Lemma dirname_snoc3 p a b c : Path.dirname (p ++ [a; b; c]) = p ++ [a; b].
Proof. change (p ++ [a; b; c]) with (p ++ [a; b] ++ [c]). rewrite app_assoc. apply removelast_last. Qed.

(** ** The Node.js calls *)

Section NodeFacts.
Context (H : host).

Lemma is_dir_true fs p : is_dir fs p = true ↔ node_at fs p = Some Dir.
Proof.
  unfold is_dir. destruct (node_at fs p) as [[|c]|]; split; congruence.
Qed.

Lemma node_at_weaken fs fs' p n : fs ⊆ fs' → node_at fs p = Some n → node_at fs' p = Some n.
Proof. destruct p; [done|]. simpl. intros. by eapply lookup_weaken. Qed.

Lemma is_dir_weaken fs fs' p : fs ⊆ fs' → is_dir fs p = true → is_dir fs' p = true.
Proof. rewrite !is_dir_true. apply node_at_weaken. Qed.

Lemma node_at_insert_eq fs p n : p ≠ [] → node_at (<[p := n]> fs) p = Some n.
Proof. destruct p; [done|]. intros _. apply lookup_insert_eq. Qed.

Lemma node_at_insert_ne fs p q n : p ≠ q → node_at (<[p := n]> fs) q = node_at fs q.
Proof. destruct q; [done|]. intros. by apply lookup_insert_ne. Qed.

Lemma enter_error_None fs p : enter_error fs p = None ↔ is_dir fs p = true.
Proof.
  unfold enter_error, is_dir. destruct (node_at fs p) as [[|c]|]; split; congruence.
Qed.

Lemma enter_error_dir fs p : is_dir fs p = true → enter_error fs p = None.
Proof. apply enter_error_None. Qed.

Lemma enter_error_Some fs p code : enter_error fs p = Some code → is_dir fs p = false.
Proof.
  intros He. destruct (is_dir fs p) eqn:Hd; [|done].
  apply enter_error_None in Hd. congruence.
Qed.

Lemma node_at_None fs p : node_at fs p = None → fs !! p = None ∧ p ≠ [].
Proof. destruct p; [discriminate|done]. Qed.

Lemma mkdir_one_ok fs p fs' :
  mkdir_one H fs p = inr fs' →
  fs' = <[p := Dir]> fs ∧ fs !! p = None ∧ p ≠ [].
Proof.
  unfold mkdir_one. destruct (refuses H _); [discriminate|].
  destruct (node_at fs p) eqn:Ep; [discriminate|].
  destruct (node_at fs (Path.dirname p)) as [[|c]|]; try discriminate.
  intros [= <-]. apply node_at_None in Ep. tauto.
Qed.

Lemma mkdir_attempt_grows fs p pending r fs' :
  mkdir_attempt H fs p pending = (r, fs') → fs ⊆ fs'.
Proof.
  unfold mkdir_attempt. destruct (mkdir_one H fs p) as [e|fs1] eqn:E.
  - destruct e; try (intros [= <- <-]; done).
    destruct (is_dir fs p); intros [= <- <-]; done.
  - intros [= <- <-]. apply mkdir_one_ok in E as (-> & Hp & _).
    by apply insert_subseteq.
Qed.

Lemma mkdir_attempt_done fs p pending fs' :
  mkdir_attempt H fs p pending = (None, fs') → is_dir fs' p = true.
Proof.
  unfold mkdir_attempt. destruct (mkdir_one H fs p) as [e|fs1] eqn:E.
  - destruct e; try discriminate.
    destruct (is_dir fs p) eqn:D; intros [= <-]; done.
  - intros [= <-]. apply mkdir_one_ok in E as (-> & _ & Hp).
    apply is_dir_true. by apply node_at_insert_eq.
Qed.

Lemma mkdirp_unfold fs rp pending :
  mkdirp H fs rp pending =
  match mkdir_attempt H fs (rev rp) pending with
  | (Some ENOENT, _) =>
    match rp with
    | [] => (Some EEXIST, fs)
    | _ :: up =>
      match mkdirp H fs up true with
      | (None, fs') => mkdir_attempt H fs' (rev rp) pending
      | (Some e, fs') => (Some e, fs')
      end
    end
  | r => r
  end.
Proof. destruct rp; reflexivity. Qed.

Lemma mkdirp_grows rp : ∀ fs pending r fs',
  mkdirp H fs rp pending = (r, fs') → fs ⊆ fs'.
Proof.
  induction rp as [|seg up IH]; intros fs pending r fs'; rewrite mkdirp_unfold;
    destruct (mkdir_attempt H fs _ pending) as [[[]|] fs1] eqn:E;
    try (intros [= <- <-]; eauto using mkdir_attempt_grows).
  destruct (mkdirp H fs up true) as [[e'|] fs2] eqn:E2.
  - intros [= <- <-]. eauto.
  - intros E3. etrans; [eapply IH, E2|]. eauto using mkdir_attempt_grows.
Qed.

Lemma mkdirp_done rp : ∀ fs pending fs',
  mkdirp H fs rp pending = (None, fs') → is_dir fs' (rev rp) = true.
Proof.
  destruct rp as [|seg up]; intros fs pending fs'; rewrite mkdirp_unfold;
    destruct (mkdir_attempt H fs _ pending) as [[[]|] fs1] eqn:E;
    try discriminate; try (intros [= <-]; eauto using mkdir_attempt_done).
  destruct (mkdirp H fs up true) as [[e'|] fs2] eqn:E2; [discriminate|].
  apply mkdir_attempt_done.
Qed.

(** A directory that is there is left alone. *)
Lemma mkdirp_existing fs rp pending :
  refuses H (CallMkdir (rev rp)) = false → is_dir fs (rev rp) = true →
  mkdirp H fs rp pending = (None, fs).
Proof.
  intros Hr Hd. rewrite mkdirp_unfold. unfold mkdir_attempt, mkdir_one.
  rewrite Hr, Hd. apply is_dir_true in Hd. rewrite Hd. reflexivity.
Qed.

Lemma fs_mkdir_cases p fs tr :
  (∃ fs', fs_mkdir H p {| files := fs; trace := tr |}
          = (Normal tt, {| files := fs'; trace := tr ++ [EvMkdir p None] |})
     ∧ fs ⊆ fs' ∧ is_dir fs' p = true)
  ∨ (∃ fs' code, fs_mkdir H p {| files := fs; trace := tr |}
       = (Throw (FsError code p),
          {| files := fs'; trace := tr ++ [EvMkdir p (Some (FsError code p))] |})
     ∧ fs ⊆ fs').
Proof.
  unfold fs_mkdir, mbind, prog_bind, get_files; simpl.
  destruct (mkdirp H fs (rev p) false) as [[code|] fs'] eqn:E; simpl.
  - right. exists fs', code. split; [done|]. eauto using mkdirp_grows.
  - left. exists fs'. split; [done|]. split; [eauto using mkdirp_grows|].
    apply mkdirp_done in E. by rewrite rev_involutive in E.
Qed.

Lemma fs_mkdir_existing p fs tr :
  refuses H (CallMkdir p) = false → is_dir fs p = true →
  fs_mkdir H p {| files := fs; trace := tr |}
  = (Normal tt, {| files := fs; trace := tr ++ [EvMkdir p None] |}).
Proof.
  intros Hr Hd. unfold fs_mkdir, mbind, prog_bind, get_files; simpl.
  rewrite mkdirp_existing; rewrite ?rev_involutive; done.
Qed.

Lemma fs_writeFile_cases p content fs tr :
  (fs_writeFile H p content {| files := fs; trace := tr |}
     = (Normal tt, {| files := <[p := File content]> fs;
                      trace := tr ++ [EvWriteFile p content None] |})
   ∧ is_dir fs (Path.dirname p) = true ∧ p ≠ [])
  ∨ (∃ code, fs_writeFile H p content {| files := fs; trace := tr |}
       = (Throw (FsError code p),
          {| files := fs;
             trace := tr ++ [EvWriteFile p content (Some (FsError code p))] |})).
Proof.
  unfold fs_writeFile, open_truncate, mbind, prog_bind, get_files; simpl.
  destruct (refuses H _); simpl; [right; eauto|].
  destruct (enter_error fs (Path.dirname p)) as [code|] eqn:Ed; simpl; [right; eauto|].
  destruct (node_at fs p) as [[|c]|] eqn:Ep; simpl; [right; eauto|left..].
  all: split; [done|]; split; [by apply enter_error_None|]; intros ->; discriminate.
Qed.

Lemma fs_writeFile_ok p content fs tr :
  refuses H (CallOpen p) = false → is_dir fs (Path.dirname p) = true →
  is_dir fs p = false →
  fs_writeFile H p content {| files := fs; trace := tr |}
  = (Normal tt, {| files := <[p := File content]> fs;
                   trace := tr ++ [EvWriteFile p content None] |}).
Proof.
  intros Hr Hd Hp. unfold fs_writeFile, open_truncate, mbind, prog_bind, get_files; simpl.
  rewrite Hr. apply enter_error_dir in Hd. rewrite Hd.
  unfold is_dir in Hp. destruct (node_at fs p) as [[|c]|]; done.
Qed.

Lemma execSync_cases cmd cwd fs tr :
  (execSync H cmd cwd {| files := fs; trace := tr |}
     = (Normal tt, {| files := (subprocess H cmd cwd fs).2;
                      trace := tr ++ [EvExec cmd cwd None] |})
   ∧ is_dir fs cwd = true ∧ (subprocess H cmd cwd fs).1 = 0%Z)
  ∨ (∃ e fs', execSync H cmd cwd {| files := fs; trace := tr |}
       = (Throw e, {| files := fs'; trace := tr ++ [EvExec cmd cwd (Some e)] |})
     ∧ (fs' = fs ∨ fs' = (subprocess H cmd cwd fs).2)).
Proof.
  unfold execSync, mbind, prog_bind, get_files; simpl.
  destruct (enter_error fs cwd) as [code|] eqn:Ed; simpl; [right; eauto|].
  apply enter_error_None in Ed.
  destruct (subprocess H cmd cwd fs) as [status fs'] eqn:E; simpl.
  destruct (Z.eqb_spec status 0) as [->|]; simpl; [left; done|right; eauto].
Qed.

Lemma execSync_ok cmd cwd fs tr :
  is_dir fs cwd = true → (subprocess H cmd cwd fs).1 = 0%Z →
  execSync H cmd cwd {| files := fs; trace := tr |}
  = (Normal tt, {| files := (subprocess H cmd cwd fs).2;
                   trace := tr ++ [EvExec cmd cwd None] |}).
Proof.
  intros Hd Hs. unfold execSync, mbind, prog_bind, get_files; simpl.
  rewrite (enter_error_dir _ _ Hd).
  destruct (subprocess H cmd cwd fs) as [status fs']; simpl in *. by subst.
Qed.

Lemma prompt_cases message fs tr :
  (prompt H message {| files := fs; trace := tr |}
     = (Normal tt, {| files := fs; trace := tr ++ [EvPrompt message] |})
   ∧ refuses H (CallPrompt message) = false)
  ∨ (prompt H message {| files := fs; trace := tr |}
       = (Throw (PromptError message), {| files := fs; trace := tr ++ [EvPrompt message] |})
     ∧ refuses H (CallPrompt message) = true).
Proof.
  unfold prompt, mbind, prog_bind, emit; simpl.
  destruct (refuses H _); [right|left]; done.
Qed.

Lemma prompt_ok message fs tr :
  refuses H (CallPrompt message) = false →
  prompt H message {| files := fs; trace := tr |}
  = (Normal tt, {| files := fs; trace := tr ++ [EvPrompt message] |}).
Proof.
  intros Hr. by destruct (prompt_cases message fs tr) as [[-> _]|[_ ?]]; [|congruence].
Qed.
End NodeFacts.

(** ** Trees and traces *)

Lemma is_dir_insert_ne fs p q n :
  p ≠ q → is_dir fs q = true → is_dir (<[p := n]> fs) q = true.
Proof. intros Hne. unfold is_dir. by rewrite node_at_insert_ne. Qed.

Lemma is_dir_insert_ne_eq fs p q n : p ≠ q → is_dir (<[p := n]> fs) q = is_dir fs q.
Proof. intros Hne. unfold is_dir. by rewrite node_at_insert_ne. Qed.

Lemma is_dir_file fs p c : p ≠ [] → fs !! p = Some (File c) → is_dir fs p = false.
Proof.
  intros Hp Hf. unfold is_dir, node_at. destruct p; [done|].
  by destruct (fs !! _) as [[|c']|]; simplify_eq.
Qed.

Lemma snoc_ne_self {A} (p l : list A) : l ≠ [] → p ++ l ≠ p.
Proof.
  intros Hl Heq. apply Hl. apply (app_inv_head p). by rewrite app_nil_r.
Qed.

Lemma snoc_ne_nil {A} (p l : list A) : l ≠ [] → p ++ l ≠ [].
Proof. intros Hl Heq. by apply app_eq_nil in Heq as [_ ?]. Qed.

Lemma present_weaken fs fs' p : fs ⊆ fs' → present fs p → present fs' p.
Proof. intros Hsub [n Hn]. exists n. by eapply node_at_weaken. Qed.

Lemma present_insert fs p q n : present fs q → present (<[p := n]> fs) q.
Proof.
  unfold present. destruct (decide (p = q)) as [<-|Hne].
  - destruct p; [done|]. simpl. rewrite lookup_insert_eq. eauto.
  - by rewrite node_at_insert_ne.
Qed.

Lemma made_snoc p tr ev : makes_nothing ev → made p (tr ++ [ev]) → made p tr.
Proof.
  unfold made. intros Hev [Hin|[c Hin]]; apply elem_of_app in Hin as [Hin|Hin]; eauto;
    apply list_elem_of_singleton in Hin; subst; contradiction.
Qed.

Lemma elem_of_select (f : event → bool) x l : x ∈ l → f x = true → x ∈ List.filter f l.
Proof.
  intros Hin Hf. apply list_elem_of_In, filter_In. split; [by apply list_elem_of_In|done].
Qed.

Lemma follows_here a b post : follows a b (a :: b :: post).
Proof. by exists [], post. Qed.

Lemma follows_later x a b tr : follows a b tr → follows a b (x :: tr).
Proof. intros (pre & post & ->). by exists (x :: pre), post. Qed.

(** ** Running the script by cases

    Each call either returns or throws ([fs_mkdir_cases], [fs_writeFile_cases],
    [execSync_cases]); splitting on every call in turn lays out each way a run
    can go, with its trace written out. *)

(** The command, with the name its first prompt resolves to in place: the
    two prompts, the working directory, then the [try]. *)
Lemma run_unfold H cwd op fs :
  run H cwd op fs
  = match prompt H "What is your project named?"
            {| files := fs;
               trace := [EvConsoleLog (chalk_cyan (figlet_textSync "Set My Stack"))] |} with
    | (Throw e, w) => (Throw e, w)
    | (Normal _, w1) =>
      match prompt H "Choose your template" w1 with
      | (Throw e, w) => (Throw e, w)
      | (Normal _, w2) =>
        let w3 := {| files := files w2;
                     trace := trace w2
                              ++ [EvSpinner SpinStart "Creating your Next.js app..."] |} in
        if refuses H CallCwd then (Throw (FsError ENOENT cwd), w3)
        else
          try_catch
            (scaffold H (projectName op) (Path.join cwd (projectName op))
               (Path.join_text cwd (projectName op)))
            (λ error,
               spinner SpinFail (chalk_red "Failed to create project");;
               console_error None error;;
               process_exit 1)
            w3
      end
    end.
Proof.
  unfold run, action, prompt_input, prompt_list, process_cwd, console_log, start.
  unfold mbind, prog_bind, mret, prog_ret, emit, throw; simpl.
  destruct (prompt H _ _) as [[[]|e] w1]; [|done].
  destruct (prompt H _ w1) as [[[]|e] w2]; [|done].
  by destruct (refuses H CallCwd).
Qed.

(** Two paths under the same directory that differ. *)
Ltac pne :=
  solve [ let E := fresh in intros E; apply app_inv_head in E; discriminate E
        | apply snoc_ne_self; discriminate
        | apply not_eq_sym, snoc_ne_self; discriminate ].

Ltac unfold_script :=
  rewrite ?run_unfold; cbv zeta;
  unfold scaffold, createProjectDirectory, createPackageJson,
    createProjectFiles, initializeGit, process_exit,
    console_log, console_error, spinner, directories;
  cbn [for_each];
  unfold mbind, prog_bind, mret, prog_ret, try_catch, emit, throw;
  cbn [files trace app];
  rewrite ?join_package_json, ?join_public, ?join_src_app, ?join_src_components,
    ?join_src_styles, ?join_layout, ?join_page, ?join_globals, ?join_gitignore.

Ltac exec_step H :=
  match goal with
  | |- context [prompt H ?m {| files := ?fs; trace := ?tr |}] =>
    destruct (prompt_cases H m fs tr) as [(-> & ?)|(-> & ?)]
  | |- context [if refuses H CallCwd then _ else _] =>
    destruct (refuses H CallCwd) eqn:?
  | |- context [fs_mkdir H ?p {| files := ?fs; trace := ?tr |}] =>
    destruct (fs_mkdir_cases H p fs tr) as [(? & -> & ? & ?)|(? & ? & -> & ?)]
  | |- context [fs_writeFile H ?p ?c {| files := ?fs; trace := ?tr |}] =>
    let Hd := fresh "Hd" in
    destruct (fs_writeFile_cases H p c fs tr) as [(-> & Hd & ?)|(? & ->)];
    [rewrite ?dirname_snoc, ?dirname_snoc2, ?dirname_snoc3 in Hd|]
  | |- context [execSync H ?cmd ?cwd {| files := ?fs; trace := ?tr |}] =>
    destruct (execSync_cases H cmd cwd fs tr) as [(-> & ? & ?)|(? & ? & -> & [->| ->])]
  end; cbn [files trace app].

Ltac exec_all H := repeat exec_step H.

(** Only the runs that end well. *)
Ltac exec_success H := repeat (exec_step H; try by intros [=]).

(** Every way a run can go: the goal is restated over the outcome and the
    final world of each. *)
Ltac on_every_run H cwd op fs :=
  let o := fresh "o" in
  let w' := fresh "w'" in
  let E := fresh "E" in
  cbv zeta;
  destruct (run H cwd op fs) as [o w'] eqn:E; revert E;
  unfold_script;
  generalize (Path.join cwd (projectName op)); intros t;
  exec_all H; intros [= <- <-]; cbn [fst snd files trace].

(** An entry of the final tree, through the later inserts and subprocesses. *)
Ltac look Hg :=
  repeat first
    [ eassumption
    | rewrite lookup_insert_eq; reflexivity
    | rewrite lookup_insert_ne by pne
    | eapply lookup_weaken; [|apply Hg]
    | eapply lookup_weaken; [|eassumption] ].

Ltac dirs Hg :=
  repeat first
    [ eassumption
    | apply is_dir_insert_ne; [pne|]
    | eapply is_dir_weaken; [apply Hg|]
    | eapply is_dir_weaken; [eassumption|] ].

(** Membership in a trace that is written out, and its inversion. *)
Ltac here := solve [repeat first [apply list_elem_of_here | apply list_elem_of_further]].

Ltac mem_inv H :=
  first [ apply elem_of_nil in H; contradiction
        | apply elem_of_cons in H as [H|H]; [try discriminate H | mem_inv H] ].

(** The same, looking only at the events [f] selects. *)
Ltac mem_inv_by f Hin :=
  apply (elem_of_select f) in Hin; [|reflexivity]; cbn [List.filter f] in Hin; mem_inv Hin.

Ltac behind := solve [repeat first [apply follows_here | apply follows_later]].

(** A write to another path cannot be the one looked for. *)
Ltac other_path E :=
  exfalso; injection E as E; intros; apply app_inv_head in E; discriminate E.

(** The outcome says whether [npm install] was reached and succeeded. *)
Ltac settle_outcome :=
  eexists; split; [reflexivity|]; split;
  [ let Ho := fresh in intros Ho; first [discriminate Ho | here]
  | let Hnpm := fresh in intros Hnpm; first [reflexivity | mem_inv_by is_exec Hnpm] ].

(** ** The two functions that catch *)


(** [initializeGit] returns: with the ignore file written, or with the
    error of [git init] or of the write logged. *)
Lemma initializeGit_returns H p w :
  ∃ w', initializeGit H p w = (Normal tt, w')
        ∧ (trace w' = trace w ++ [EvExec "git init" p None;
                                  EvWriteFile (p ++ [".gitignore"]) gitignoreContent None]
           ∨ (∃ e, trace w' = trace w ++ [EvExec "git init" p (Some e);
                                         EvConsoleError (Some "Error initializing git:") e])
           ∨ (∃ e, trace w' = trace w ++ [EvExec "git init" p None;
                                         EvWriteFile (p ++ [".gitignore"]) gitignoreContent
                                           (Some e);
                                         EvConsoleError (Some "Error initializing git:") e])).
Proof.
  destruct w as [fs tr].
  unfold initializeGit, try_catch, mbind, prog_bind, console_error, emit.
  rewrite join_gitignore.
  destruct (execSync_cases H "git init" p fs tr) as [(-> & _)|(e & fs' & -> & _)].
  - destruct (fs_writeFile_cases H (p ++ [".gitignore"]) gitignoreContent
                (subprocess H "git init" p fs).2 (tr ++ [EvExec "git init" p None]))
      as [(-> & _)|(code & ->)]; eexists; (split; [reflexivity|]); simpl;
      rewrite <- ?app_assoc; eauto.
  - eexists; split; [reflexivity|]. simpl. rewrite <- app_assoc. eauto.
Qed.

(** ** Nothing is removed

    An invariant of every call, hence of the command. *)

Section Preserved.
Context {I : world → Prop}.

Lemma preserved_ret {A} (a : A) : preserved I (mret a).
Proof. by intros w. Qed.

Lemma preserved_bind {A B} (m : prog A) (k : A → prog B) :
  preserved I m → (∀ a, preserved I (k a)) → preserved I (m ≫= k).
Proof.
  intros Hm Hk w Hw. unfold mbind, prog_bind. specialize (Hm w Hw).
  destruct (m w) as [[a|e] w1]; [by apply Hk|done].
Qed.

Lemma preserved_try {A} (body : prog A) handler :
  preserved I body → (∀ e, preserved I (handler e)) → preserved I (try_catch body handler).
Proof.
  intros Hb Hh w Hw. unfold try_catch. specialize (Hb w Hw).
  destruct (body w) as [[a|e] w1]; [done|by apply Hh].
Qed.

Lemma preserved_for_each {A} (xs : list A) body :
  (∀ x, preserved I (body x)) → preserved I (for_each xs body).
Proof.
  intros Hb. induction xs as [|x xs IH]; [apply preserved_ret|].
  apply preserved_bind; [apply Hb|by intros _].
Qed.

Lemma preserved_cwd H cwd : preserved I (process_cwd H cwd).
Proof. intros w Hw. unfold process_cwd. by destruct (refuses H CallCwd). Qed.

Lemma preserved_prompt H message :
  preserved I (emit (EvPrompt message)) → preserved I (prompt H message).
Proof.
  intros He [fs tr] Hw. specialize (He _ Hw).
  by destruct (prompt_cases H message fs tr) as [[-> _]|[-> _]].
Qed.

End Preserved.

Section NothingLost.
Context (H : host) (Hkeeps : keeps_entries H) (fs0 : gmap Path.t node).

Local Abbreviation intact := (intact fs0).

Lemma intact_emit ev : makes_nothing ev → preserved intact (emit ev).
Proof.
  intros Hev w [Hl Hp]. split; [|done]. intros p Hm. apply Hl. by apply made_snoc in Hm.
Qed.

Lemma intact_mkdir p : preserved intact (fs_mkdir H p).
Proof.
  intros [fs tr] [Hl Hp].
  destruct (fs_mkdir_cases H p fs tr) as [(fs' & -> & Hsub & Hd)|(fs' & code & -> & Hsub)];
    unfold intact, nothing_lost in *; cbn [snd files trace] in *;
    (split; [|intros q Hq; eapply present_weaken; [exact Hsub|apply Hp, Hq]]).
  - intros q [Hin|[c Hin]]; apply elem_of_app in Hin as [Hin|Hin].
    + eapply present_weaken; [exact Hsub|]. apply Hl. by left.
    + apply list_elem_of_singleton in Hin as [= ->]. apply is_dir_true in Hd.
      unfold present. simpl. rewrite Hd. eauto.
    + eapply present_weaken; [exact Hsub|]. apply Hl. right; eauto.
    + by apply list_elem_of_singleton in Hin.
  - intros q Hm. eapply present_weaken; [exact Hsub|].
    apply made_snoc in Hm; [|exact I]. by apply Hl.
Qed.

Lemma intact_writeFile p c : preserved intact (fs_writeFile H p c).
Proof.
  intros [fs tr] [Hl Hp].
  destruct (fs_writeFile_cases H p c fs tr) as [(-> & Hd & Hne)|(code & ->)];
    unfold intact, nothing_lost in *; cbn [snd files trace] in *.
  - split; [|intros q Hq; by apply present_insert, Hp].
    intros q [Hin|[c' Hin]]; apply elem_of_app in Hin as [Hin|Hin].
    + apply present_insert, Hl. by left.
    + by apply list_elem_of_singleton in Hin.
    + apply present_insert, Hl. right; eauto.
    + apply list_elem_of_singleton in Hin as [= -> ->].
      unfold present. simpl. rewrite node_at_insert_eq by done. eauto.
  - split; [|done]. intros q Hm. apply made_snoc in Hm; [|exact I]. by apply Hl.
Qed.

Lemma present_subprocess cmd cwd fs p :
  present fs p → present (subprocess H cmd cwd fs).2 p.
Proof. destruct p; [done|]. apply Hkeeps. Qed.

Lemma intact_execSync cmd cwd : preserved intact (execSync H cmd cwd).
Proof.
  intros [fs tr] [Hl Hp].
  destruct (execSync_cases H cmd cwd fs tr) as [(-> & _)|(e & fs' & -> & Hfs)];
    unfold intact, nothing_lost in *; cbn [snd files trace] in *.
  - split; [|intros q Hq; by apply present_subprocess, Hp].
    intros q Hm. apply present_subprocess. apply made_snoc in Hm; [|exact I]. by apply Hl.
  - split.
    + intros q Hm. apply made_snoc in Hm; [|exact I]. apply Hl in Hm.
      destruct Hfs as [->| ->]; [done|by apply present_subprocess].
    + intros q Hq. destruct Hfs as [->| ->]; [by apply Hp|by apply present_subprocess, Hp].
Qed.

(** The command is built from these calls with [bind], [try] and the loop. *)
Lemma intact_action cwd op : preserved intact (action H cwd op).
Proof.
  unfold action, scaffold, createProjectDirectory, createPackageJson, createProjectFiles,
    initializeGit, prompt_input, prompt_list, process_exit, console_log, console_error, spinner.
  cbv zeta.
  repeat lazymatch goal with
    | |- preserved _ (fs_mkdir _ _) => apply intact_mkdir
    | |- preserved _ (fs_writeFile _ _ _) => apply intact_writeFile
    | |- preserved _ (execSync _ _ _) => apply intact_execSync
    | |- preserved _ (prompt _ _) => apply preserved_prompt
    | |- preserved _ (process_cwd _ _) => apply preserved_cwd
    | |- preserved _ (emit _) => by apply intact_emit
    | |- preserved _ (mret _) => apply preserved_ret
    | |- preserved _ (for_each _ _) => apply preserved_for_each; intros ?
    | |- preserved _ (try_catch _ _) => apply preserved_try; [|intros ?]
    | |- preserved _ (_ ≫= _) => apply preserved_bind; [|intros ?]
    end.
Qed.

End NothingLost.

(** What the trace says was made is in the tree at the end of any run, and
    so is what was there at the start. *)
Lemma run_intact H cwd op fs : keeps_entries H → intact fs (run H cwd op fs).2.
Proof.
  intros Hk. apply (intact_action H Hk fs cwd op (start fs)).
  split; [|done]. intros p [Hin|[c Hin]]; by apply elem_of_nil in Hin.
Qed.

(** ** Runs that end well *)

(** What such a run leaves in the tree. *)
Lemma success_files H cwd op fs w' :
  gentle H →
  run H cwd op fs = (Normal Succeeded, w') →
  let t := Path.join cwd (projectName op) in
  scaffolded (files w') t (projectName op)
  ∧ ((∀ e, EvConsoleError (Some "Error initializing git:") e ∉ trace w') →
     files w' !! (t ++ [".gitignore"]) = Some (File gitignoreContent)).
Proof.
  intros Hg. unfold_script.
  generalize (Path.join cwd (projectName op)). intros t.
  exec_success H.
  all: intros [= <-]; cbn [files trace]; unfold scaffolded.
  all: repeat split; try (by dirs Hg); try (by look Hg).
  all: intros Hno; first [by look Hg | exfalso; eapply Hno; here].
Qed.

(** Its calls. *)
Lemma success_trace H cwd op fs w' :
  run H cwd op fs = (Normal Succeeded, w') →
  let t := Path.join cwd (projectName op) in
  (∃ res, EvMkdir t res ∈ trace w')
  ∧ EvWriteFile (t ++ ["package.json"]) (JSON.stringify (packageJson (projectName op)) 2) None
    ∈ trace w'
  ∧ EvWriteFile (t ++ ["src"; "app"; "layout.tsx"]) layoutContent None ∈ trace w'
  ∧ EvWriteFile (t ++ ["src"; "app"; "page.tsx"]) pageContent None ∈ trace w'
  ∧ EvWriteFile (t ++ ["src"; "styles"; "globals.css"]) globalCssContent None ∈ trace w'
  ∧ (∃ res, EvExec "git init" t res ∈ trace w')
  ∧ EvExec "npm install" t None ∈ trace w'.
Proof.
  unfold_script. generalize (Path.join cwd (projectName op)). intros t.
  exec_success H.
  all: intros [= <-]; cbn [trace]; repeat split; first [here | eexists; here].
Qed.

Lemma scaffolded_collides fs t name : scaffolded fs t name → collides fs t.
Proof.
  intros (Ht & Hpj & Hpub & Happ & Hcomp & Hsty & Hlay & Hpage & Hcss).
  repeat split; try done; (eapply is_dir_file; [|done]); by apply snoc_ne_nil.
Qed.

(** The script on a tree that has the directories, and maybe files where the
    script writes its own: on an obliging host every call returns. *)
Lemma run_again H cwd op fs :
  obliging H → gentle H →
  collides fs (Path.join cwd (projectName op)) →
  ∃ w2, run H cwd op fs = (Normal Succeeded, w2)
        ∧ scaffolded (files w2) (Path.join cwd (projectName op)) (projectName op)
        ∧ filter is_prompt (trace w2)
          = [EvPrompt "What is your project named?"; EvPrompt "Choose your template"].
Proof.
  intros [Hr Hz] Hg. unfold collides, scaffolded. unfold_script.
  generalize (Path.join cwd (projectName op)). intros t.
  intros (Ht & Hpub & Happ & Hcomp & Hsty & Hpj & Hlay & Hpage & Hcss).
  do 2 (rewrite prompt_ok by apply Hr; cbn [files trace app]). rewrite (Hr CallCwd).
  rewrite fs_mkdir_existing by done. cbn [app].
  rewrite fs_writeFile_ok; [|done|by rewrite dirname_snoc|done]. cbn [app].
  rewrite !fs_mkdir_existing by (first [apply Hr | dirs Hg]). cbn [app].
  do 3 (rewrite fs_writeFile_ok;
    [|done|rewrite dirname_snoc3; dirs Hg|by rewrite !is_dir_insert_ne_eq by pne];
    cbn [app]).
  rewrite execSync_ok by (first [apply Hz | dirs Hg]). cbn [app].
  exec_step H.
  all: rewrite execSync_ok by (first [apply Hz | dirs Hg]); cbn [app].
  all: eexists; split; [reflexivity|]; cbn [files trace]; split; [|reflexivity].
  all: repeat split; try (by dirs Hg); try (by look Hg).
Qed.

(** ** Runs in which a step fails *)

Lemma install_failure_reported H cwd op fs e :
  let t := Path.join cwd (projectName op) in
  let r := run H cwd op fs in
  EvExec "npm install" t (Some e) ∈ trace r.2 →
  (∃ o, r.1 = Normal o ∧ exit_code o = 1%Z)
  ∧ EvSpinner SpinFail (chalk_red "Failed to create project") ∈ trace r.2
  ∧ EvConsoleError None e ∈ trace r.2
  ∧ last (trace r.2) = Some (EvExit 1).
Proof.
  on_every_run H cwd op fs.
  all: intros Hin; mem_inv_by is_exec Hin.
  all: injection Hin as ->.
  all: repeat split; first [by eexists | here | reflexivity].
Qed.


Lemma git_failure_logged H cwd op fs e :
  let t := Path.join cwd (projectName op) in
  let r := run H cwd op fs in
  EvExec "git init" t (Some e) ∈ trace r.2 →
  EvConsoleError (Some "Error initializing git:") e ∈ trace r.2
  ∧ EvSpinner SpinText "Installing dependencies..." ∈ trace r.2
  ∧ (∃ res, EvExec "npm install" t res ∈ trace r.2)
  ∧ (∃ o, r.1 = Normal o ∧ (o = Succeeded ↔ EvExec "npm install" t None ∈ trace r.2)).
Proof.
  on_every_run H cwd op fs.
  all: intros Hin; mem_inv_by is_exec Hin.
  all: injection Hin as ->.
  all: split; [here|split; [here|split; [eexists; here|settle_outcome]]].
Qed.

(** Where the writes of a run go, and what precedes the write of the ignore
    file. *)
Lemma writes_of_a_run H cwd op fs :
  let t := Path.join cwd (projectName op) in
  let tr := trace (run H cwd op fs).2 in
  (∀ p content res, EvWriteFile p content res ∈ tr → p ∈ written_paths t)
  ∧ (∀ e, EvExec "git init" t (Some e) ∈ tr →
          ∀ content res, EvWriteFile (t ++ [".gitignore"]) content res ∉ tr)
  ∧ (∀ content res, EvWriteFile (t ++ [".gitignore"]) content res ∈ tr →
          follows (EvExec "git init" t None)
                  (EvWriteFile (t ++ [".gitignore"]) content res) tr).
Proof.
  unfold written_paths. on_every_run H cwd op fs.
  all: split; [|split].
  all: try (intros p content res Hw; mem_inv_by is_write Hw; injection Hw as -> _ _; here).
  all: try (intros e Hin content res Hw; mem_inv_by is_exec Hin;
            mem_inv_by is_write Hw; other_path Hw).
  all: intros content res Hw; mem_inv_by is_write Hw.
  all: first [other_path Hw | injection Hw as -> ->; behind].
Qed.

(** ** The hosts of the examples *)

Lemma gentle_calm : gentle calm.
Proof. by intros cmd cwd fs. Qed.

Lemma obliging_calm : obliging calm.
Proof. by split. Qed.

Lemma keeps_entries_offline : keeps_entries offline.
Proof. by intros cmd cwd fs p. Qed.

(** * More about the calls and the runs *)

(** ** The Node.js calls, with the reason of each failure *)

Section NodeWhy.
Context (H : host).

Lemma mkdir_attempt_frame fs p pending r fs' q :
  mkdir_attempt H fs p pending = (r, fs') → q ≠ p → fs' !! q = fs !! q.
Proof.
  unfold mkdir_attempt. destruct (mkdir_one H fs p) as [e|fs1] eqn:E.
  - destruct e; try (by intros [= <- <-]).
    by destruct (is_dir fs p); intros [= <- <-].
  - intros [= <- <-] Hq. apply mkdir_one_ok in E as (-> & _). by rewrite lookup_insert_ne.
Qed.

Lemma mkdir_attempt_failed fs p pending e fs' :
  mkdir_attempt H fs p pending = (Some e, fs') → fs' = fs.
Proof.
  unfold mkdir_attempt. destruct (mkdir_one H fs p) as [e'|fs1] eqn:E; [|discriminate].
  destruct e'; try (by intros [= <- <-]).
  by destruct (is_dir fs p); intros [= <- <-].
Qed.

(** The recursive [mkdir] touches the path and the paths above it only. *)
Lemma mkdirp_frame rp : ∀ fs pending r fs' q,
  mkdirp H fs rp pending = (r, fs') → (length rp < length q)%nat → fs' !! q = fs !! q.
Proof.
  induction rp as [|seg up IH]; intros fs pending r fs' q; rewrite mkdirp_unfold;
    destruct (mkdir_attempt H fs _ pending) as [[[]|] fs1] eqn:E; intros Hm Hlen;
    try (injection Hm as <- <-; eapply mkdir_attempt_frame; [exact E|];
         intros ->; rewrite length_rev in Hlen; lia).
  - by injection Hm as <- <-.
  - destruct (mkdirp H fs up true) as [[e'|] fs2] eqn:E2.
    + injection Hm as <- <-. eapply IH; [exact E2|]. simpl in Hlen. lia.
    + etrans; [eapply mkdir_attempt_frame; [exact Hm|]|eapply IH; [exact E2|]].
      * intros ->. rewrite length_rev in Hlen. lia.
      * simpl in Hlen. lia.
Qed.

Lemma mkdirp_touches rp : ∀ fs pending r fs' q,
  mkdirp H fs rp pending = (r, fs') → ¬ q `prefix_of` rev rp → fs' !! q = fs !! q.
Proof.
  induction rp as [|seg up IH]; intros fs pending r fs' q; rewrite mkdirp_unfold;
    destruct (mkdir_attempt H fs _ pending) as [[[]|] fs1] eqn:E; intros Hm Hq;
    try (injection Hm as <- <-; eapply mkdir_attempt_frame; [exact E|]; by intros ->).
  - by injection Hm as <- <-.
  - assert (¬ q `prefix_of` rev up) as Hup
      by (intros Hp; apply Hq; simpl; by apply prefix_app_r).
    destruct (mkdirp H fs up true) as [[e'|] fs2] eqn:E2.
    + injection Hm as <- <-. by eapply IH.
    + etrans; [eapply mkdir_attempt_frame; [exact Hm|by intros ->]|by eapply IH].
Qed.

(** When it fails, the path itself is as it was. *)
Lemma mkdirp_failed rp fs pending e fs' :
  mkdirp H fs rp pending = (Some e, fs') → fs' !! rev rp = fs !! rev rp.
Proof.
  rewrite mkdirp_unfold.
  destruct (mkdir_attempt H fs _ pending) as [[[]|] fs1] eqn:E;
    try (intros [= <- <-]; apply mkdir_attempt_failed in E; by subst); try discriminate.
  destruct rp as [|seg up]; [by intros [= <- <-]|].
  destruct (mkdirp H fs up true) as [[e'|] fs2] eqn:E2.
  - intros [= <- <-]. eapply mkdirp_frame; [exact E2|]. rewrite length_rev. simpl. lia.
  - intros Hm. apply mkdir_attempt_failed in Hm as ->.
    eapply mkdirp_frame; [exact E2|]. rewrite length_rev. simpl. lia.
Qed.

Lemma fs_mkdir_why p fs tr :
  (∃ fs', fs_mkdir H p {| files := fs; trace := tr |}
          = (Normal tt, {| files := fs'; trace := tr ++ [EvMkdir p None] |})
     ∧ fs ⊆ fs' ∧ is_dir fs' p = true
     ∧ ∀ q, ¬ q `prefix_of` p → fs' !! q = fs !! q)
  ∨ (∃ fs' code, fs_mkdir H p {| files := fs; trace := tr |}
       = (Throw (FsError code p),
          {| files := fs'; trace := tr ++ [EvMkdir p (Some (FsError code p))] |})
     ∧ fs ⊆ fs' ∧ is_dir fs' p = is_dir fs p
     ∧ ∀ q, ¬ q `prefix_of` p → fs' !! q = fs !! q).
Proof.
  unfold fs_mkdir, mbind, prog_bind, get_files; simpl.
  destruct (mkdirp H fs (rev p) false) as [[code|] fs'] eqn:E; simpl.
  all: assert (∀ q, ¬ q `prefix_of` p → fs' !! q = fs !! q) as Hframe
    by (intros q Hq; eapply mkdirp_touches; [exact E|by rewrite rev_involutive]).
  - right. exists fs', code. split; [done|]. split; [eauto using mkdirp_grows|].
    split; [|done].
    apply mkdirp_failed in E. rewrite rev_involutive in E.
    assert (node_at fs' p = node_at fs p) as Hn by (destruct p; [done|exact E]).
    unfold is_dir. by rewrite Hn.
  - left. exists fs'. split; [done|]. split; [eauto using mkdirp_grows|].
    split; [|done].
    apply mkdirp_done in E. by rewrite rev_involutive in E.
Qed.

Lemma fs_writeFile_why p content fs tr :
  (fs_writeFile H p content {| files := fs; trace := tr |}
     = (Normal tt, {| files := <[p := File content]> fs;
                      trace := tr ++ [EvWriteFile p content None] |})
   ∧ is_dir fs (Path.dirname p) = true ∧ is_dir fs p = false)
  ∨ (∃ code, fs_writeFile H p content {| files := fs; trace := tr |}
       = (Throw (FsError code p),
          {| files := fs;
             trace := tr ++ [EvWriteFile p content (Some (FsError code p))] |})
     ∧ (refuses H (CallOpen p) = true ∨ is_dir fs (Path.dirname p) = false
        ∨ is_dir fs p = true)).
Proof.
  unfold fs_writeFile, open_truncate, mbind, prog_bind, get_files; simpl.
  destruct (refuses H _); simpl; [right; eauto|].
  destruct (enter_error fs (Path.dirname p)) as [code|] eqn:Ed; simpl.
  { right. exists code. split; [done|]. right. left. by eapply enter_error_Some. }
  apply enter_error_None in Ed.
  assert (is_dir fs p = match node_at fs p with Some Dir => true | _ => false end) as Hp
    by done.
  destruct (node_at fs p) as [[|c]|] eqn:Ep; simpl; [right; eauto|left..]; done.
Qed.

Lemma execSync_why cmd cwd fs tr :
  (execSync H cmd cwd {| files := fs; trace := tr |}
     = (Normal tt, {| files := (subprocess H cmd cwd fs).2;
                      trace := tr ++ [EvExec cmd cwd None] |})
   ∧ is_dir fs cwd = true ∧ (subprocess H cmd cwd fs).1 = 0%Z)
  ∨ (∃ e, execSync H cmd cwd {| files := fs; trace := tr |}
       = (Throw e, {| files := fs; trace := tr ++ [EvExec cmd cwd (Some e)] |})
     ∧ is_dir fs cwd = false)
  ∨ (∃ e, execSync H cmd cwd {| files := fs; trace := tr |}
       = (Throw e, {| files := (subprocess H cmd cwd fs).2;
                      trace := tr ++ [EvExec cmd cwd (Some e)] |})
     ∧ (subprocess H cmd cwd fs).1 ≠ 0%Z).
Proof.
  unfold execSync, mbind, prog_bind, get_files; simpl.
  destruct (enter_error fs cwd) as [code|] eqn:Ed; simpl.
  { right. left. eexists. split; [done|]. by eapply enter_error_Some. }
  apply enter_error_None in Ed.
  destruct (subprocess H cmd cwd fs) as [status fs'] eqn:E; simpl.
  destruct (Z.eqb_spec status 0) as [->|]; simpl; [left; done|right; right; eauto].
Qed.

End NodeWhy.

(** ** Directories that are not there yet *)

Section Fresh.
Context (H : host) (Hr : ∀ c, refuses H c = false).

Lemma mkdir_one_fresh fs p :
  node_at fs p = None → is_dir fs (Path.dirname p) = true →
  mkdir_one H fs p = inr (<[p := Dir]> fs).
Proof.
  intros Hp Hd. unfold mkdir_one. apply is_dir_true in Hd. by rewrite Hr, Hp, Hd.
Qed.

(** A directory that is not there, under one that is. *)
Lemma fs_mkdir_fresh p fs tr :
  node_at fs p = None → is_dir fs (Path.dirname p) = true →
  fs_mkdir H p {| files := fs; trace := tr |}
  = (Normal tt, {| files := <[p := Dir]> fs; trace := tr ++ [EvMkdir p None] |}).
Proof.
  intros Hp Hd. unfold fs_mkdir, mbind, prog_bind, get_files; simpl.
  rewrite mkdirp_unfold, rev_involutive. unfold mkdir_attempt.
  by rewrite mkdir_one_fresh.
Qed.

(** A directory that is not there, and neither is its parent. *)
Lemma fs_mkdir_fresh2 p a b fs tr :
  node_at fs (p ++ [a]) = None → node_at fs (p ++ [a; b]) = None →
  is_dir fs p = true →
  fs_mkdir H (p ++ [a; b]) {| files := fs; trace := tr |}
  = (Normal tt, {| files := <[p ++ [a; b] := Dir]> (<[p ++ [a] := Dir]> fs);
                   trace := tr ++ [EvMkdir (p ++ [a; b]) None] |}).
Proof.
  intros Ha Hb Hd. unfold fs_mkdir, mbind, prog_bind, get_files; simpl.
  assert (rev (p ++ [a; b]) = b :: rev (p ++ [a])) as ->.
  { change (p ++ [a; b]) with (p ++ [a] ++ [b]). by rewrite app_assoc, rev_unit. }
  rewrite mkdirp_unfold. cbn [rev]. rewrite rev_involutive.
  replace ((p ++ [a]) ++ [b]) with (p ++ [a; b]) by by rewrite <- app_assoc.
  unfold mkdir_attempt at 1. unfold mkdir_one at 1.
  rewrite Hr, Hb, dirname_snoc2, Ha.
  rewrite mkdirp_unfold, rev_involutive. unfold mkdir_attempt at 1.
  rewrite mkdir_one_fresh by by rewrite ?dirname_snoc.
  unfold mkdir_attempt. rewrite mkdir_one_fresh; [done| |].
  - rewrite node_at_insert_ne; [done|pne].
  - rewrite dirname_snoc2. apply is_dir_true, node_at_insert_eq. by apply snoc_ne_nil.
Qed.
End Fresh.

Lemma is_dir_absent fs p : node_at fs p = None → is_dir fs p = false.
Proof. unfold is_dir. by intros ->. Qed.

Lemma is_dir_insert_dir fs p : p ≠ [] → is_dir (<[p := Dir]> fs) p = true.
Proof. intros Hp. apply is_dir_true. by apply node_at_insert_eq. Qed.

(** A path under [t] that no insert so far has reached. *)
Ltac absent Hnone := rewrite ?node_at_insert_ne by pne; apply Hnone.

(** A directory that an insert so far has made. *)
Ltac inserted Ht :=
  repeat first
    [ exact Ht
    | apply is_dir_insert_dir; by apply snoc_ne_nil
    | apply is_dir_insert_ne; [pne|] ].

(** ** A file where a directory is wanted *)



(** ** Names that are paths *)

Lemma split_slash a r :
  existsb Path.is_slash (list_ascii_of_string a) = false →
  Path.split (a +:+ String "/" r) = a :: Path.split r.
Proof.
  induction a as [|c a IH]; [done|]. simpl. intros [Hc Ha]%orb_false_elim.
  change (String c a +:+ String "/" r) with (String c (a +:+ String "/" r)).
  simpl. by rewrite Hc, IH.
Qed.

Lemma plain_no_slash s :
  Path.plain_segment s = true → existsb Path.is_slash (list_ascii_of_string s) = false.
Proof.
  unfold Path.plain_segment. rewrite !andb_true_iff, !negb_true_iff. tauto.
Qed.

Lemma step_plain p s : Path.plain_segment s = true → Path.step p s = p ++ [s].
Proof.
  unfold Path.plain_segment, Path.step. rewrite !andb_true_iff, !negb_true_iff.
  by intros [[[-> ->] ->] _].
Qed.

Lemma split_concat segs :
  segs ≠ [] → forallb Path.plain_segment segs = true →
  Path.split (String.concat "/" segs) = segs.
Proof.
  induction segs as [|a segs IH]; [done|]. intros _. simpl.
  rewrite andb_true_iff. intros [Ha Hsegs].
  destruct segs as [|b segs]; [by apply split_plain, plain_no_slash|].
  change (a +:+ "/" +:+ String.concat "/" (b :: segs))
    with (a +:+ String "/" (String.concat "/" (b :: segs))).
  rewrite split_slash by by apply plain_no_slash. by rewrite IH.
Qed.

Lemma fold_step_plain segs : ∀ base,
  forallb Path.plain_segment segs = true → fold_left Path.step segs base = base ++ segs.
Proof.
  induction segs as [|a segs IH]; intros base; simpl; [by rewrite app_nil_r|].
  rewrite andb_true_iff. intros [Ha Hsegs].
  rewrite step_plain, IH by done. by rewrite <- app_assoc.
Qed.

Lemma join_concat base segs :
  segs ≠ [] → forallb Path.plain_segment segs = true →
  Path.join base (String.concat "/" segs) = base ++ segs.
Proof.
  intros Hne Hsegs. unfold Path.join. by rewrite split_concat, fold_step_plain.
Qed.


(** ** Prefixes *)

Lemma prefix_snoc_inv {A} (q p : list A) a :
  q `prefix_of` p ++ [a] → q `prefix_of` p ∨ q = p ++ [a].
Proof.
  intros [k Hk]. destruct k as [|x k _] using rev_ind.
  - right. by rewrite app_nil_r in Hk.
  - left. rewrite app_assoc in Hk. apply app_inj_tail in Hk as [-> _]. by exists k.
Qed.

Lemma prefix_snoc2_inv {A} (q p : list A) a b :
  q `prefix_of` p ++ [a; b] → q `prefix_of` p ∨ q = p ++ [a] ∨ q = p ++ [a; b].
Proof.
  change (p ++ [a; b]) with (p ++ [a] ++ [b]). rewrite app_assoc.
  intros [[Hq|Hq]%prefix_snoc_inv|Hq]%prefix_snoc_inv; auto.
Qed.

(** An entry that no call of the run reached. *)
Ltac unchanged Hi :=
  repeat first
    [ reflexivity
    | rewrite lookup_insert_ne by (apply not_eq_sym; assumption)
    | rewrite Hi
    | match goal with
      | Hf : ∀ q', ¬ q' `prefix_of` _ → ?tree' !! q' = _ |- context [?tree' !! ?q0] =>
        rewrite (Hf q0) by assumption
      end ].

Lemma inert_gentle H : inert H → gentle H.
Proof. intros Hi cmd cwd fs. by rewrite Hi. Qed.

(** ** Running the script by cases, with the reason of each failure *)

Ltac exec_step_why H :=
  match goal with
  | |- context [prompt H ?m {| files := ?fs; trace := ?tr |}] =>
    destruct (prompt_cases H m fs tr) as [(-> & ?)|(-> & ?)]
  | |- context [if refuses H CallCwd then _ else _] =>
    destruct (refuses H CallCwd) eqn:?
  | |- context [fs_mkdir H ?p {| files := ?fs; trace := ?tr |}] =>
    destruct (fs_mkdir_why H p fs tr) as [(? & -> & ? & ? & ?)|(? & ? & -> & ? & ? & ?)]
  | |- context [fs_writeFile H ?p ?c {| files := ?fs; trace := ?tr |}] =>
    let Hd := fresh "Hd" in
    destruct (fs_writeFile_why H p c fs tr) as [(-> & Hd & ?)|(? & -> & Hd)];
    rewrite ?dirname_snoc, ?dirname_snoc2, ?dirname_snoc3 in Hd
  | |- context [execSync H ?cmd ?cwd {| files := ?fs; trace := ?tr |}] =>
    destruct (execSync_why H cmd cwd fs tr) as [(-> & ? & ?)|[(? & -> & ?)|(? & -> & ?)]]
  end; cbn [files trace app].

Ltac on_every_run_why H cwd op fs :=
  let o := fresh "o" in
  let w' := fresh "w'" in
  let E := fresh "E" in
  cbv zeta;
  destruct (run H cwd op fs) as [o w'] eqn:E; revert E;
  unfold_script;
  generalize (Path.join cwd (projectName op)); intros t;
  repeat exec_step_why H; intros [= <- <-]; cbn [fst snd files trace].

(** The end of a trace that is written out. *)
Ltac at_end := solve [repeat first [reflexivity | apply suffix_cons_r]].

(** The calls of a trace that is written out, among the steps. *)
Ltac in_order :=
  solve [repeat first [apply sublist_nil | apply sublist_skip | apply sublist_cons]].

(** Any event of a trace that is written out. *)
Ltac each_event Hin :=
  first [ apply elem_of_nil in Hin; contradiction
        | apply elem_of_cons in Hin as [->|Hin]; [|each_event Hin] ].

(** An entry of the final tree that no write of the run replaced. *)
Ltac kept Hg :=
  repeat first
    [ eassumption
    | rewrite lookup_insert_ne by (apply not_eq_sym; assumption)
    | eapply lookup_weaken; [|apply Hg]
    | eapply lookup_weaken; [|eassumption] ].

(** ** Invariants of the command *)

(** What every call keeps, the command keeps. *)
Lemma preserved_action (I : world → Prop) H cwd op :
  (∀ p, preserved I (fs_mkdir H p)) →
  (∀ p content, preserved I (fs_writeFile H p content)) →
  (∀ cmd dir, preserved I (execSync H cmd dir)) →
  (∀ ev, preserved I (emit ev)) →
  preserved I (action H cwd op).
Proof.
  intros Hmkdir Hwrite Hexec Hemit.
  unfold action, scaffold, createProjectDirectory, createPackageJson, createProjectFiles,
    initializeGit, prompt_input, prompt_list, process_exit, console_log, console_error, spinner.
  cbv zeta.
  repeat lazymatch goal with
    | |- preserved _ (fs_mkdir _ _) => apply Hmkdir
    | |- preserved _ (fs_writeFile _ _ _) => apply Hwrite
    | |- preserved _ (execSync _ _ _) => apply Hexec
    | |- preserved _ (prompt _ _) => apply preserved_prompt
    | |- preserved _ (process_cwd _ _) => apply preserved_cwd
    | |- preserved _ (emit _) => apply Hemit
    | |- preserved _ (mret _) => apply preserved_ret
    | |- preserved _ (for_each _ _) => apply preserved_for_each; intros ?
    | |- preserved _ (try_catch _ _) => apply preserved_try; [|intros ?]
    | |- preserved _ (_ ≫= _) => apply preserved_bind; [|intros ?]
    end.
Qed.

(** ** A second run *)

(** After a first run that ended well, on a host that refuses nothing and
    whose subprocesses exit 0 and leave the tree alone, the ignore file is
    there, unless a directory stands in its place. *)
Lemma first_run_gitignore H cwd op fs w1 :
  obliging H → inert H →
  run H cwd op fs = (Normal Succeeded, w1) →
  let gi := Path.join cwd (projectName op) ++ [".gitignore"] in
  files w1 !! gi = Some (File gitignoreContent) ∨ is_dir (files w1) gi = true.
Proof.
  intros [Hr Hz] Hi. pose proof (inert_gentle H Hi) as Hg. unfold_script.
  generalize (Path.join cwd (projectName op)). intros t.
  repeat (exec_step_why H; try by intros [=]).
  all: intros [= <-]; cbn [files trace]; rewrite ?Hi in *.
  all: try (left; by look Hg).
  all: repeat match goal with Hx : _ ∨ _ |- _ => destruct Hx as [Hx|Hx] end.
  all: try match goal with Hx : refuses _ _ = true |- _ => by rewrite Hr in Hx end.
  all: try match goal with Hx : (subprocess _ _ _ _).1 ≠ 0%Z |- _ => by rewrite Hz in Hx end.
  all: try match goal with
    | Hx : is_dir ?tree ?p = false |- _ =>
      assert (is_dir tree p = true) by dirs Hg; congruence
    end.
  all: by right.
Qed.

(** The script on a tree that has the project already: what it leaves. *)
Lemma run_again_tree H cwd op tree :
  obliging H → inert H →
  let t := Path.join cwd (projectName op) in
  collides tree t →
  let sources :=
    <[t ++ ["src"; "styles"; "globals.css"] := File globalCssContent]>
      (<[t ++ ["src"; "app"; "page.tsx"] := File pageContent]>
         (<[t ++ ["src"; "app"; "layout.tsx"] := File layoutContent]>
            (<[t ++ ["package.json"]
               := File (JSON.stringify (packageJson (projectName op)) 2)]> tree))) in
  ∃ w2, run H cwd op tree = (Normal Succeeded, w2)
        ∧ (files w2 = <[t ++ [".gitignore"] := File gitignoreContent]> sources
             ∧ is_dir tree (t ++ [".gitignore"]) = false
           ∨ files w2 = sources ∧ is_dir tree (t ++ [".gitignore"]) = true).
Proof.
  intros [Hr Hz] Hi. pose proof (inert_gentle H Hi) as Hg.
  cbv zeta. unfold collides. unfold_script.
  generalize (Path.join cwd (projectName op)). intros t.
  intros (Ht & Hpub & Happ & Hcomp & Hsty & Hpj & Hlay & Hpage & Hcss).
  do 2 (rewrite prompt_ok by apply Hr; cbn [files trace app]). rewrite (Hr CallCwd).
  rewrite fs_mkdir_existing by done. cbn [app].
  rewrite fs_writeFile_ok; [|done|by rewrite dirname_snoc|done]. cbn [app].
  rewrite !fs_mkdir_existing by (first [apply Hr | dirs Hg]). cbn [app].
  do 3 (rewrite fs_writeFile_ok;
    [|done|rewrite dirname_snoc3; dirs Hg|by rewrite !is_dir_insert_ne_eq by pne];
    cbn [app]).
  rewrite execSync_ok by (first [apply Hz | dirs Hg]). cbn [app]. rewrite Hi.
  exec_step_why H.
  all: rewrite execSync_ok by (first [apply Hz | dirs Hg]); cbn [app]; rewrite Hi.
  all: eexists; split; [reflexivity|]; cbn [files].
  - left. split; [done|].
    match goal with Hx : is_dir _ (t ++ [".gitignore"]) = false |- _ =>
      by rewrite !is_dir_insert_ne_eq in Hx by pne end.
  - right. split; [done|].
    destruct Hd as [Hx|[Hx|Hx]]; [by rewrite Hr in Hx| |].
    + match type of Hx with
      | is_dir ?tree' ?p = false => assert (is_dir tree' p = true) by dirs Hg
      end. congruence.
    + by rewrite !is_dir_insert_ne_eq in Hx by pne.
Qed.

(** ** What a run reaches *)

(** The calls of any run are among the steps, in their order. *)
Lemma calls_among_steps H cwd op fs :
  calls (trace (run H cwd op fs).2)
  `sublist_of` steps (projectName op) (Path.join cwd (projectName op)).
Proof.
  on_every_run H cwd op fs.
  all: unfold calls, steps; cbn [omap call_of list_omap]; in_order.
Qed.

(** On a host whose subprocesses leave the tree alone, a path that is not
    the project path, nor above it, nor an entry of the project is as it
    was. *)
Lemma untouched_outside H cwd op fs q :
  let t := Path.join cwd (projectName op) in
  inert H →
  ¬ q `prefix_of` t →
  q ∉ project_paths t →
  files (run H cwd op fs).2 !! q = fs !! q.
Proof.
  cbv zeta. intros Hi Hup. unfold project_paths. rewrite !not_elem_of_cons.
  intros (Hpj & Hpub & Hsrc & Happ & Hcomp & Hsty & Hlay & Hpage & Hcss & Hgi & _).
  assert (¬ q `prefix_of` Path.join cwd (projectName op) ++ ["public"]) as Fpub
    by (intros []%prefix_snoc_inv; done).
  assert (¬ q `prefix_of` Path.join cwd (projectName op) ++ ["src"; "app"]) as Fapp
    by (intros [|[|]]%prefix_snoc2_inv; done).
  assert (¬ q `prefix_of` Path.join cwd (projectName op) ++ ["src"; "components"]) as Fcomp
    by (intros [|[|]]%prefix_snoc2_inv; done).
  assert (¬ q `prefix_of` Path.join cwd (projectName op) ++ ["src"; "styles"]) as Fsty
    by (intros [|[|]]%prefix_snoc2_inv; done).
  clear Hpub Hsrc Happ Hcomp Hsty.
  revert Hup Hpj Hlay Hpage Hcss Hgi Fpub Fapp Fcomp Fsty.
  on_every_run_why H cwd op fs.
  all: intros Hup Hpj Hlay Hpage Hcss Hgi Fpub Fapp Fcomp Fsty; by unchanged Hi.
Qed.

(** ** The text of the project path *)

Lemma plain_ends_without_slash s :
  existsb Path.is_slash (list_ascii_of_string s) = false → Path.ends_with_slash s = false.
Proof.
  induction s as [|c s IH]; [done|]. simpl. intros [Hc Hs]%orb_false_elim.
  destruct s; [done|]. by apply IH.
Qed.

Lemma join_text_plain cwd name :
  Path.plain_segment name = true →
  Path.join_text cwd name = Path.to_string (cwd ++ [name]).
Proof.
  intros Hname. unfold Path.join_text, Path.to_string. rewrite join_plain by done.
  rewrite plain_ends_without_slash by by apply plain_no_slash.
  destruct (cwd ++ [name]) eqn:E; [done|]. generalize (Path.render_segments (s :: l)).
  intros r. induction r as [|c r IH]; [done|]. rewrite JSONFacts.append_cons. by rewrite IH.
Qed.

(** * The specification, claim by claim *)

(** C1, as amended.  For a project name that is one ordinary path segment,
    on a host whose subprocesses only add to the tree, a run that ends in the
    success state leaves under the working directory a directory of that name
    holding the manifest, [public/], [src/app/layout.tsx], [src/app/page.tsx],
    [src/components/] and [src/styles/globals.css]; [.gitignore] is there with
    its template when no git error was logged.  The script adds nothing
    else: its calls are among the twelve of [steps], and when the subprocesses
    leave the tree alone, every path other than the project path, the paths
    above it and the ten entries of [project_paths] holds what it held
    before the run, or nothing as before. *)
Theorem scaffold_on_success H cwd op fs w' :
  gentle H →
  Path.plain_segment (projectName op) = true →
  run H cwd op fs = (Normal Succeeded, w') →
  let t := cwd ++ [projectName op] in
  Path.join cwd (projectName op) = t
  ∧ scaffolded (files w') t (projectName op)
  ∧ ((∀ e, EvConsoleError (Some "Error initializing git:") e ∉ trace w') →
     files w' !! (t ++ [".gitignore"]) = Some (File gitignoreContent))
  ∧ calls (trace w') `sublist_of` steps (projectName op) t
  ∧ (inert H →
     ∀ q, ¬ q `prefix_of` t → q ∉ project_paths t → files w' !! q = fs !! q).
Proof.
  intros Hg Hname Hrun. cbv zeta.
  destruct (success_files H cwd op fs w' Hg Hrun) as [Hs Hi].
  pose proof (calls_among_steps H cwd op fs) as Hc.
  pose proof (untouched_outside H cwd op fs) as Hb. cbv zeta in Hb.
  rewrite Hrun in Hc, Hb. cbn [snd] in Hc, Hb.
  rewrite join_plain in Hs, Hi, Hc by done.
  split; [by apply join_plain|]. split; [done|]. split; [done|]. split; [done|].
  intros Hinert q Hq Hnot. rewrite <- (join_plain cwd (projectName op)) in Hq, Hnot by done.
  by apply Hb.
Qed.

Lemma scaffold_on_success_witness :
  scaffolded (files (run calm ["home"] (app_request DefaultTypeScript) home).2)
    ["home"; "app"] "app"
  ∧ files (run calm ["home"] (app_request DefaultTypeScript) home).2
      !! ["home"; "app"; "EXTRA.txt"] = home !! ["home"; "app"; "EXTRA.txt"].
Proof.
  destruct (scaffold_on_success calm ["home"] (app_request DefaultTypeScript) home
    (run calm ["home"] (app_request DefaultTypeScript) home).2 gentle_calm)
    as (_ & Hs & _ & _ & Hb); [reflexivity|by vm_compute|].
  split; [exact Hs|]. apply Hb.
  - by intros cmd cwd fs.
  - by intros [k Hk]; vm_compute in Hk.
  - unfold project_paths. rewrite !not_elem_of_cons.
    repeat split; try (by vm_compute). apply not_elem_of_nil.
Defined.

(** C1 as stated fails: without [git] the run ends in the success state and
    writes no [.gitignore]; and what was in the directory before stays there,
    so the directory need not hold the fixed set only. *)
Lemma gitignore_may_be_missing :
  (run without_git ["home"] (app_request DefaultTypeScript) home).1 = Normal Succeeded
  ∧ files (run without_git ["home"] (app_request DefaultTypeScript) home).2
      !! ["home"; "app"; ".gitignore"] = None
  ∧ (run calm ["home"] (app_request DefaultTypeScript) home_with_app).1 = Normal Succeeded
  ∧ files (run calm ["home"] (app_request DefaultTypeScript) home_with_app).2
      !! ["home"; "app"; "notes.txt"] = Some (File "keep").
Proof. vm_compute. repeat split. Qed.

(** C2.  Two runs whose answers differ only in the template choice do the
    same: the same outcome, the same tree with the same contents, the same
    calls in the same order. *)
Theorem template_choice_ignored H cwd (a1 a2 : answers) fs :
  projectName a1 = projectName a2 →
  run H cwd a1 fs = run H cwd a2 fs.
Proof.
  intros Hname. by rewrite !run_unfold, Hname.
Qed.

Lemma template_choice_ignored_witness :
  run calm ["home"] (app_request WithTailwind) home
  = run calm ["home"] (app_request BasicJavaScript) home.
Proof.
  exact (template_choice_ignored calm ["home"] (app_request WithTailwind)
           (app_request BasicJavaScript) home eq_refl).
Defined.

(** C3.  [createPackageJson] writes to [package.json] under the project path
    the text of one JSON object, whatever the project name: read back, it is
    the object whose [name] is that project name, whose [version] is "0.1.0",
    whose [private] is [true], whose [scripts] are the four [next] commands
    and whose [dependencies] and [devDependencies] are the constant tables.
    The write is made: when the project path is a directory, no directory
    stands at [package.json] and the host does not refuse the call, the
    function returns and the tree holds that text there, as it does after any
    run that ended in the success state. *)
Theorem manifest_contents H projectPath name (w : world) :
  let text := JSON.stringify (packageJson name) 2 in
  let target := projectPath ++ ["package.json"] in
  let r := createPackageJson H projectPath name w in
  (∃ res, trace r.2 = trace w ++ [EvWriteFile target text res]
          ∧ match r.1 with
            | Normal _ => res = None ∧ files r.2 = <[target := File text]> (files w)
            | Throw e => res = Some e ∧ files r.2 = files w
            end)
  ∧ (refuses H (CallOpen target) = false →
     is_dir (files w) projectPath = true →
     is_dir (files w) target = false →
     r.1 = Normal tt ∧ files r.2 !! target = Some (File text))
  ∧ (∀ cwd op fs w',
       gentle H →
       run H cwd op fs = (Normal Succeeded, w') →
       files w' !! (Path.join cwd (projectName op) ++ ["package.json"])
       = Some (File (JSON.stringify (packageJson (projectName op)) 2)))
  ∧ JSONRead.parse text = Some (packageJson name)
  ∧ JSON.field "name" (packageJson name) = Some (JSON.Str name)
  ∧ JSON.field "version" (packageJson name) = Some (JSON.Str "0.1.0")
  ∧ JSON.field "private" (packageJson name) = Some (JSON.Bool true)
  ∧ JSON.field "scripts" (packageJson name)
    = Some (JSON.Object [("dev", JSON.Str "next dev"); ("build", JSON.Str "next build");
                         ("start", JSON.Str "next start"); ("lint", JSON.Str "next lint")])
  ∧ JSON.field "dependencies" (packageJson name)
    = Some (JSON.Object [("next", JSON.Str "14.1.0"); ("react", JSON.Str "^18.2.0");
                         ("react-dom", JSON.Str "^18.2.0")])
  ∧ JSON.field "devDependencies" (packageJson name)
    = Some (JSON.Object [("@types/node", JSON.Str "^20.11.0");
                         ("@types/react", JSON.Str "^18.2.0");
                         ("@types/react-dom", JSON.Str "^18.2.0");
                         ("typescript", JSON.Str "^5.3.0"); ("eslint", JSON.Str "^8.56.0");
                         ("eslint-config-next", JSON.Str "14.1.0")]).
Proof.
  cbv zeta.
  split; [|split; [|split; [|split; [apply JSONFacts.parse_stringify|by repeat split]]]].
  - destruct w as [fs tr]. unfold createPackageJson. rewrite join_package_json.
    destruct (fs_writeFile_cases H (projectPath ++ ["package.json"])
                (JSON.stringify (packageJson name) 2) fs tr)
      as [(-> & _ & _)|(code & ->)]; eexists; split; done.
  - destruct w as [fs tr]. simpl. intros Hr Hd Hp.
    unfold createPackageJson. rewrite join_package_json.
    rewrite fs_writeFile_ok by (rewrite ?dirname_snoc; done).
    split; [done|]. apply lookup_insert_eq.
  - intros cwd op fs w' Hg Hrun.
    destruct (success_files H cwd op fs w' Hg Hrun) as [Hs _]. apply Hs.
Qed.

(** C3, on a tree: the manifest of [app], written into [/home/app]. *)
Lemma manifest_contents_witness :
  (createPackageJson calm ["home"; "app"] "app" (start home_with_app)).1 = Normal tt
  ∧ files (createPackageJson calm ["home"; "app"] "app" (start home_with_app)).2
      !! ["home"; "app"; "package.json"]
    = Some (File (JSON.stringify (packageJson "app") 2)).
Proof.
  refine (proj1 (proj2 (manifest_contents calm ["home"; "app"] "app" (start home_with_app)))
            _ _ _); reflexivity.
Defined.

(** C4.  When [npm install] fails, the run prints "Failed to create project"
    and the error, exits with code 1, and removes nothing: on a host whose
    subprocesses remove no entry, every directory and file the earlier steps
    made, and every entry that was there before, is still in the tree. *)
Theorem install_failure_exits_1 H cwd op fs e :
  let t := Path.join cwd (projectName op) in
  let r := run H cwd op fs in
  keeps_entries H →
  EvExec "npm install" t (Some e) ∈ trace r.2 →
  (∃ o, r.1 = Normal o ∧ exit_code o = 1%Z)
  ∧ EvSpinner SpinFail (chalk_red "Failed to create project") ∈ trace r.2
  ∧ EvConsoleError None e ∈ trace r.2
  ∧ last (trace r.2) = Some (EvExit 1)
  ∧ nothing_lost r.2
  ∧ (∀ p, present fs p → present (files r.2) p).
Proof.
  cbv zeta. intros Hk Hin.
  destruct (install_failure_reported H cwd op fs e Hin) as (Hexit & Hfail & Herr & Hlast).
  destruct (run_intact H cwd op fs Hk) as [Hmade Hbefore].
  by repeat split.
Qed.

Lemma install_failure_exits_1_witness :
  ∃ o, (run offline ["home"] (app_request DefaultTypeScript) home).1 = Normal o
       ∧ exit_code o = 1%Z.
Proof.
  refine (proj1 (install_failure_exits_1 offline ["home"] (app_request DefaultTypeScript)
    home (ExecError "npm install" 1) keeps_entries_offline _)).
  vm_compute. here.
Defined.



(** C6.  When [git init] fails, [initializeGit] logs the error and returns:
    it never throws.  The run goes on to [npm install], and ends in the
    success state exactly when that succeeds; without [git] a run can end
    with exit code 0. *)
Theorem git_failure_is_swallowed H cwd op fs e :
  let t := Path.join cwd (projectName op) in
  let r := run H cwd op fs in
  EvExec "git init" t (Some e) ∈ trace r.2 →
  EvConsoleError (Some "Error initializing git:") e ∈ trace r.2
  ∧ EvSpinner SpinText "Installing dependencies..." ∈ trace r.2
  ∧ (∃ res, EvExec "npm install" t res ∈ trace r.2)
  ∧ (∃ o, r.1 = Normal o ∧ (o = Succeeded ↔ EvExec "npm install" t None ∈ trace r.2))
  ∧ (∀ p w, ∃ w',
       initializeGit H p w = (Normal tt, w')
       ∧ (trace w' = trace w ++ [EvExec "git init" p None;
                                 EvWriteFile (p ++ [".gitignore"]) gitignoreContent None]
          ∨ (∃ e', trace w' = trace w ++ [EvExec "git init" p (Some e');
                                         EvConsoleError (Some "Error initializing git:") e'])
          ∨ (∃ e', trace w' = trace w ++ [EvExec "git init" p None;
                                         EvWriteFile (p ++ [".gitignore"]) gitignoreContent
                                           (Some e');
                                         EvConsoleError (Some "Error initializing git:") e'])))
  ∧ (let r' := run without_git ["home"] (app_request DefaultTypeScript) home in
     EvExec "git init" ["home"; "app"] (Some (ExecError "git init" 127)) ∈ trace r'.2
     ∧ r'.1 = Normal Succeeded ∧ exit_code Succeeded = 0%Z).
Proof.
  cbv zeta. intros Hin.
  destruct (git_failure_logged H cwd op fs e Hin) as (Hlog & Hspin & Hnpm & Hexit).
  repeat match goal with |- _ ∧ _ => split end; try done.
  - apply initializeGit_returns.
  - vm_compute. here.
Qed.

Lemma git_failure_is_swallowed_witness :
  EvConsoleError (Some "Error initializing git:") (ExecError "git init" 127)
  ∈ trace (run without_git ["home"] (app_request DefaultTypeScript) home).2.
Proof.
  refine (proj1 (git_failure_is_swallowed without_git ["home"]
    (app_request DefaultTypeScript) home (ExecError "git init" 127) _)).
  vm_compute. here.
Defined.

(** C7.  On a host that refuses nothing, whose subprocesses exit 0 and only
    add to the tree: after a run that ended in the success state, a second run
    with the same answers on the tree it left ends in the success state too,
    asks nothing beyond the two prompts, and leaves the manifest and the
    source files with their templates; so does a run on any tree that has the
    directories already, whatever files stand where the script writes.
    [fs.mkdir] of a path that is a directory changes nothing, and a
    [fs.writeFile] that returns has put the content, as given, at the path,
    whether the path was there or not. *)
Theorem second_run_overwrites H cwd op fs w1 :
  obliging H → gentle H →
  run H cwd op fs = (Normal Succeeded, w1) →
  let t := Path.join cwd (projectName op) in
  (∃ w2, run H cwd op (files w1) = (Normal Succeeded, w2)
         ∧ scaffolded (files w2) t (projectName op)
         ∧ filter is_prompt (trace w2)
           = [EvPrompt "What is your project named?"; EvPrompt "Choose your template"])
  ∧ (∀ tree, collides tree t →
       ∃ w2, run H cwd op tree = (Normal Succeeded, w2)
             ∧ scaffolded (files w2) t (projectName op))
  ∧ (∀ p tree tr, is_dir tree p = true →
       fs_mkdir H p {| files := tree; trace := tr |}
       = (Normal tt, {| files := tree; trace := tr ++ [EvMkdir p None] |}))
  ∧ (∀ p content w,
       match (fs_writeFile H p content w).1 with
       | Normal _ => files (fs_writeFile H p content w).2 = <[p := File content]> (files w)
       | Throw _ => files (fs_writeFile H p content w).2 = files w
       end)
  ∧ (∀ p content tree tr,
       is_dir tree (Path.dirname p) = true → is_dir tree p = false →
       (fs_writeFile H p content {| files := tree; trace := tr |}).1 = Normal tt).
Proof.
  intros Hob Hg Hrun. cbv zeta.
  destruct (success_files H cwd op fs w1 Hg Hrun) as [Hs _].
  split; [by eapply run_again, scaffolded_collides|].
  split; [intros tree Hc; destruct (run_again H cwd op tree Hob Hg Hc) as (w2 & ? & ? & _);
          by exists w2|].
  destruct Hob as [Hr Hz]. split; [|split].
  - intros p tree tr Hd. by apply fs_mkdir_existing.
  - intros p content [tree tr].
    by destruct (fs_writeFile_cases H p content tree tr) as [(-> & _)|(code & ->)].
  - intros p content tree tr Hd Hp. by rewrite fs_writeFile_ok.
Qed.

Lemma second_run_overwrites_witness :
  ∃ w2, run calm ["home"] (app_request DefaultTypeScript)
          (files (run calm ["home"] (app_request DefaultTypeScript) home).2)
        = (Normal Succeeded, w2)
        ∧ scaffolded (files w2) ["home"; "app"] "app"
        ∧ filter is_prompt (trace w2)
          = [EvPrompt "What is your project named?"; EvPrompt "Choose your template"].
Proof.
  refine (proj1 (second_run_overwrites calm ["home"] (app_request DefaultTypeScript) home _
    obliging_calm gentle_calm _)).
  vm_compute. reflexivity.
Defined.

(** C8.  [.gitignore] is written only right after a [git init] that
    succeeded: in a run where [git init] fails there is no write to it at all.
    Such a run can still end in the success state, with no [.gitignore] in
    the tree. *)
Theorem gitignore_only_after_git_init H cwd op fs :
  let t := Path.join cwd (projectName op) in
  let tr := trace (run H cwd op fs).2 in
  (∀ e, EvExec "git init" t (Some e) ∈ tr →
        ∀ content res, EvWriteFile (t ++ [".gitignore"]) content res ∉ tr)
  ∧ (∀ content res, EvWriteFile (t ++ [".gitignore"]) content res ∈ tr →
        follows (EvExec "git init" t None)
                (EvWriteFile (t ++ [".gitignore"]) content res) tr)
  ∧ (let r' := run without_git ["home"] (app_request DefaultTypeScript) home in
     r'.1 = Normal Succeeded ∧ files r'.2 !! ["home"; "app"; ".gitignore"] = None).
Proof.
  cbv zeta. destruct (writes_of_a_run H cwd op fs) as (_ & Hnone & Hafter).
  split; [exact Hnone|]. split; [exact Hafter|]. by vm_compute.
Qed.

(** C9.  Whatever the template choice, the JavaScript one included, the only
    files a run writes are the five of [written_paths], and a run that ends in
    the success state has written [src/app/layout.tsx] and [src/app/page.tsx]:
    on a host whose subprocesses only add to the tree, both are in the tree
    it leaves, with their templates.  No other file is made beside them: when
    the subprocesses leave the tree alone, every other name in [src/app] holds
    after the run what it held before, or nothing as before. *)
Theorem sources_are_tsx H cwd op fs :
  let t := Path.join cwd (projectName op) in
  let r := run H cwd op fs in
  (∀ p content res, EvWriteFile p content res ∈ trace r.2 → p ∈ written_paths t)
  ∧ (r.1 = Normal Succeeded →
     EvWriteFile (t ++ ["src"; "app"; "layout.tsx"]) layoutContent None ∈ trace r.2
     ∧ EvWriteFile (t ++ ["src"; "app"; "page.tsx"]) pageContent None ∈ trace r.2)
  ∧ (gentle H → r.1 = Normal Succeeded →
     files r.2 !! (t ++ ["src"; "app"; "layout.tsx"]) = Some (File layoutContent)
     ∧ files r.2 !! (t ++ ["src"; "app"; "page.tsx"]) = Some (File pageContent))
  ∧ (inert H →
     ∀ file, file ≠ "layout.tsx" → file ≠ "page.tsx" →
       files r.2 !! (t ++ ["src"; "app"; file]) = fs !! (t ++ ["src"; "app"; file])).
Proof.
  cbv zeta. split; [apply writes_of_a_run|]. split; [|split].
  - intros Hrun. destruct (run H cwd op fs) as [o w'] eqn:E. simpl in Hrun. subst o.
    apply success_trace in E. cbv zeta in E. simpl. tauto.
  - intros Hg Hrun. destruct (run H cwd op fs) as [o w'] eqn:E. simpl in Hrun. subst o.
    destruct (success_files H cwd op fs w' Hg E) as [Hs _]. unfold scaffolded in Hs.
    simpl. tauto.
  - intros Hi file Hlay Hpage. apply untouched_outside; [done| |].
    + intros [k Hk]. rewrite <- app_assoc in Hk.
      rewrite <- (app_nil_r (Path.join _ _)) in Hk at 1. by apply app_inv_head in Hk.
    + unfold project_paths. rewrite !not_elem_of_cons.
      repeat split; try apply not_elem_of_nil.
      all: intros Heq; apply app_inv_head in Heq; congruence.
Qed.

Lemma sources_are_tsx_witness :
  files (run calm ["home"] (app_request BasicJavaScript) home).2
    !! ["home"; "app"; "src"; "app"; "layout.tsx"] = Some (File layoutContent)
  ∧ files (run calm ["home"] (app_request BasicJavaScript) home).2
      !! ["home"; "app"; "src"; "app"; "page.tsx"] = Some (File pageContent).
Proof.
  refine (proj1 (proj2 (proj2 (sources_are_tsx calm ["home"] (app_request BasicJavaScript)
    home))) gentle_calm _).
  vm_compute. reflexivity.
Defined.

(** C10, as amended.  An empty answer to the first prompt is resolved to the
    default, [my-next-app]: the script never holds an empty project name, and
    a run that ends in the success state has made the manifest, the
    directories and the source files in [my-next-app] under the working
    directory, and has run [git init] and [npm install] there.  The target
    path is the working directory itself for the name [.]: then the project
    is scaffolded in place. *)
Theorem empty_answer_takes_the_default_name H cwd op fs w' :
  typed op = EmptyString →
  gentle H →
  run H cwd op fs = (Normal Succeeded, w') →
  let t := cwd ++ ["my-next-app"] in
  projectName op = "my-next-app"
  ∧ Path.join cwd (projectName op) = t
  ∧ scaffolded (files w') t "my-next-app"
  ∧ (∃ res, EvMkdir t res ∈ trace w')
  ∧ EvWriteFile (t ++ ["package.json"]) (JSON.stringify (packageJson "my-next-app") 2) None
    ∈ trace w'
  ∧ (∃ res, EvExec "git init" t res ∈ trace w')
  ∧ EvExec "npm install" t None ∈ trace w'
  ∧ (∀ op', projectName op' ≠ EmptyString)
  ∧ (∀ op' w'',
       typed op' = "." →
       run H cwd op' fs = (Normal Succeeded, w'') →
       Path.join cwd (projectName op') = cwd ∧ scaffolded (files w'') cwd ".").
Proof.
  intros Htyped Hg Hrun. cbv zeta.
  assert (projectName op = "my-next-app") as Hname
    by (unfold projectName; by rewrite Htyped).
  pose proof (success_files H cwd op fs w' Hg Hrun) as [Hs _].
  pose proof (success_trace H cwd op fs w' Hrun) as Ht. cbv zeta in Ht.
  rewrite Hname in *. change (Path.join cwd "my-next-app") with (cwd ++ ["my-next-app"]) in *.
  destruct Ht as (Hmk & Hpj & _ & _ & _ & Hgit & Hnpm).
  do 7 (split; [done|]). split.
  - intros op'. unfold projectName, filterInput.
    by destruct (String.eqb_spec (typed op') EmptyString).
  - intros op' w'' Hdot Hrun'.
    pose proof (success_files H cwd op' fs w'' Hg Hrun') as [Hs' _].
    unfold projectName in Hs' |- *. by rewrite Hdot in Hs' |- *.
Qed.

Lemma empty_answer_takes_the_default_name_witness :
  scaffolded
    (files (run calm ["home"] {| typed := EmptyString; template := WithTailwind |} home).2)
    ["home"; "my-next-app"] "my-next-app".
Proof.
  refine (proj1 (proj2 (proj2 (empty_answer_takes_the_default_name calm ["home"]
    {| typed := EmptyString; template := WithTailwind |} home _ eq_refl gentle_calm _)))).
  vm_compute. reflexivity.
Defined.

(** C10 as stated fails: the operator who enters nothing gets the project in
    [my-next-app], and nothing is written into the working directory
    itself. *)
Lemma empty_answer_is_not_in_place :
  let op := {| typed := EmptyString; template := WithTailwind |} in
  let r := run calm ["home"] op home in
  Path.join ["home"] (projectName op) = ["home"; "my-next-app"]
  ∧ r.1 = Normal Succeeded
  ∧ files r.2 !! ["home"; "package.json"] = None
  ∧ files r.2 !! ["home"; "src"] = None
  ∧ files r.2 !! ["home"; "my-next-app"; "package.json"]
    = Some (File (JSON.stringify (packageJson "my-next-app") 2)).
Proof. vm_compute. repeat split. Qed.

(** * Further properties of the command *)

(** X1.  Every run ends in one of three ways.  It succeeded: the last two
    events are the [npm install] that returned and the success message, with
    the project name and the text of the project path in it, and
    [process.exit] was never called.  Or it failed: the last three events are
    the failure message, the error on the console and [process.exit(1)],
    called once, and no [npm install] returned.  Or an error was thrown
    before the [try], where nothing catches it: a prompt was rejected, and
    the last event is that prompt, or [process.cwd()] threw, after the
    opening; then no call was made, [process.exit] was not called and the
    tree is as it was. *)
Theorem run_ends_in_a_terminal_state H cwd op fs :
  let t := Path.join cwd (projectName op) in
  let r := run H cwd op fs in
  (r.1 = Normal Succeeded
   ∧ [EvExec "npm install" t None;
      EvSpinner SpinSucceed
        (chalk_green (successMessage (projectName op)
                        (Path.join_text cwd (projectName op))))]
     `suffix_of` trace r.2
   ∧ filter is_exit (trace r.2) = [])
  ∨ (r.1 = Normal Failed
     ∧ (∃ e, failure_report e `suffix_of` trace r.2)
     ∧ filter is_exit (trace r.2) = [EvExit 1]
     ∧ EvExec "npm install" t None ∉ trace r.2)
  ∨ (∃ e,
       r.1 = Throw e
       ∧ ((∃ message,
             e = PromptError message
             ∧ refuses H (CallPrompt message) = true
             ∧ last (trace r.2) = Some (EvPrompt message))
          ∨ (e = FsError ENOENT cwd
             ∧ refuses H CallCwd = true
             ∧ trace r.2 = opening))
       ∧ calls (trace r.2) = []
       ∧ filter is_exit (trace r.2) = []
       ∧ files r.2 = fs).
Proof.
  on_every_run H cwd op fs.
  all: first
    [ left; split; [reflexivity|]; split; [at_end|reflexivity]
    | right; left; split; [reflexivity|]; split; [eexists; unfold failure_report; at_end|];
      split; [reflexivity|]; intros Hin; mem_inv_by is_exec Hin
    | right; right; eexists; split; [reflexivity|]; split; [|by repeat split];
      first [left; eexists; by repeat split | right; by repeat split] ].
Qed.

(** X2.  A failure the script does not catch ends the run at once: when the
    write of the manifest or of a source file, the [mkdir] of one of the four
    directories, or [npm install] fails, the next and last three events are
    the failure message, that error on the console and [process.exit(1)];
    no later step is attempted. *)
Theorem uncaught_failure_aborts H cwd op fs ev e :
  let t := Path.join cwd (projectName op) in
  let r := run H cwd op fs in
  ev ∈ trace r.2 →
  uncaught t ev e →
  r.1 = Normal Failed ∧ (ev :: failure_report e) `suffix_of` trace r.2.
Proof.
  on_every_run H cwd op fs.
  all: intros Hin Hu; each_event Hin; cbn [uncaught] in Hu; try contradiction.
  all: destruct Hu as [<- Hu]; try (by destruct Hu); try discriminate Hu.
  all: split; [reflexivity|unfold failure_report; at_end].
Qed.

Lemma uncaught_failure_aborts_witness :
  (run calm ["home"] (app_request DefaultTypeScript) home_with_src_file).1 = Normal Failed.
Proof.
  refine (proj1 (uncaught_failure_aborts calm ["home"] (app_request DefaultTypeScript)
    home_with_src_file
    (EvMkdir ["home"; "app"; "src"; "app"]
       (Some (FsError ENOTDIR ["home"; "app"; "src"; "app"])))
    (FsError ENOTDIR ["home"; "app"; "src"; "app"]) _ _)).
  - vm_compute. here.
  - split; [reflexivity|]. vm_compute. discriminate.
Defined.

(** X3.  The calls a run makes to the file system and to subprocesses are,
    in this order and each at most once, among the twelve of [steps]: a run
    makes no directory, writes no file and starts no command besides, and
    runs its two commands in the project path. *)
Theorem calls_follow_the_steps H cwd op fs :
  let t := Path.join cwd (projectName op) in
  calls (trace (run H cwd op fs).2) `sublist_of` steps (projectName op) t.
Proof. apply calls_among_steps. Qed.

(** X4.  A run in which both prompts resolve and [process.cwd()] returns
    begins with the banner, the question for the name, the question for the
    template and the start of the spinner; the first call after them is the
    [mkdir] of the project path, and nothing is asked again, whatever is in
    the way.  A run in which a prompt is rejected ends at that prompt, and
    one in which [process.cwd()] throws ends after the opening, with the error
    uncaught and the tree as it was. *)
Theorem questions_come_first H cwd op fs :
  let t := Path.join cwd (projectName op) in
  let r := run H cwd op fs in
  let banner := EvConsoleLog (chalk_cyan (figlet_textSync "Set My Stack")) in
  let name_question := "What is your project named?" in
  let template_question := "Choose your template" in
  (refuses H (CallPrompt name_question) = false
   ∧ refuses H (CallPrompt template_question) = false
   ∧ refuses H CallCwd = false
   ∧ ∃ res rest,
       trace r.2 = opening ++ EvMkdir t res :: rest ∧ filter is_prompt rest = [])
  ∨ (refuses H (CallPrompt name_question) = true
     ∧ r = (Throw (PromptError name_question),
            {| files := fs; trace := [banner; EvPrompt name_question] |}))
  ∨ (refuses H (CallPrompt name_question) = false
     ∧ refuses H (CallPrompt template_question) = true
     ∧ r = (Throw (PromptError template_question),
            {| files := fs;
               trace := [banner; EvPrompt name_question; EvPrompt template_question] |}))
  ∨ (refuses H (CallPrompt name_question) = false
     ∧ refuses H (CallPrompt template_question) = false
     ∧ refuses H CallCwd = true
     ∧ r = (Throw (FsError ENOENT cwd), {| files := fs; trace := opening |})).
Proof.
  on_every_run H cwd op fs.
  all: first
    [ left; split; [assumption|]; split; [assumption|]; split; [reflexivity|]; by eexists _, _
    | right; left; by split
    | right; right; left; by repeat split
    | right; right; right; by repeat split ].
Qed.

(** X5.  When the [mkdir] of the project path fails and the path is not a
    directory already, the run goes on to the manifest, whose write fails in
    turn, and ends there: the trace is the opening, the failed [mkdir], its
    log line, the failed write and the failure report, and the run has
    failed. *)
Theorem missing_directory_fails_at_manifest H cwd op fs e :
  let t := Path.join cwd (projectName op) in
  let r := run H cwd op fs in
  EvMkdir t (Some e) ∈ trace r.2 →
  is_dir fs t = false →
  r.1 = Normal Failed
  ∧ ∃ code,
      trace r.2
      = opening ++
        [EvMkdir t (Some e);
         EvConsoleError (Some "Error creating directory:") e;
         EvWriteFile (t ++ ["package.json"]) (JSON.stringify (packageJson (projectName op)) 2)
           (Some (FsError code (t ++ ["package.json"])))]
        ++ failure_report (FsError code (t ++ ["package.json"])).
Proof.
  on_every_run_why H cwd op fs.
  all: intros Hin Hno; mem_inv_by is_mkdir Hin.
  all: try (exfalso; injection Hin as Hp _; revert Hp; pne).
  all: try congruence.
  all: injection Hin as <-; split; [reflexivity|by eexists].
Qed.

Lemma missing_directory_fails_at_manifest_witness :
  (run (locked ["home"; "app"]) ["home"] (app_request DefaultTypeScript) home).1
  = Normal Failed.
Proof.
  refine (proj1 (missing_directory_fails_at_manifest (locked ["home"; "app"]) ["home"]
    (app_request DefaultTypeScript) home (FsError EACCES ["home"; "app"]) _ _)).
  - vm_compute. here.
  - reflexivity.
Defined.

(** X6.  A run that succeeded and logged no error has made exactly the
    events of [clean_events], in that order: the project directory, the
    manifest, the four directories, the three source files, [git init], the
    ignore file, [npm install], the success message, which shows the project
    path as [path.join] returns it, with the trailing separator of the name
    if it has one. *)
Theorem clean_run_trace H cwd op fs w' :
  run H cwd op fs = (Normal Succeeded, w') →
  filter is_console_error (trace w') = [] →
  trace w' = clean_events (projectName op) (Path.join cwd (projectName op))
               (Path.join_text cwd (projectName op)).
Proof.
  unfold_script. generalize (Path.join cwd (projectName op)). intros t.
  exec_success H.
  all: intros [= <-]; cbn [trace]; intros Hno; first [reflexivity | discriminate Hno].
Qed.

Lemma clean_run_trace_witness :
  trace (run calm ["home"] {| typed := "app/"; template := DefaultTypeScript |} home).2
  = clean_events "app/" ["home"; "app"] "/home/app/".
Proof.
  refine (clean_run_trace calm ["home"] {| typed := "app/"; template := DefaultTypeScript |}
    home _ _ _).
  - vm_compute. reflexivity.
  - vm_compute. reflexivity.
Defined.

(** X7.  On a host that refuses nothing and whose subprocesses exit 0 and
    leave the tree alone, a second run with the same answers after a run that
    succeeded succeeds too and leaves the tree exactly as it found it. *)
Theorem rerun_changes_nothing H cwd op fs w1 :
  obliging H → inert H →
  run H cwd op fs = (Normal Succeeded, w1) →
  ∃ w2, run H cwd op (files w1) = (Normal Succeeded, w2) ∧ files w2 = files w1.
Proof.
  intros Hob Hi Hrun. pose proof (inert_gentle H Hi) as Hg.
  destruct (success_files H cwd op fs w1 Hg Hrun) as [Hs _].
  pose proof (first_run_gitignore H cwd op fs w1 Hob Hi Hrun) as Hgi. 
  destruct (run_again_tree H cwd op (files w1) Hob Hi (scaffolded_collides _ _ _ Hs))
    as (w2 & Hrun2 & Hfiles).
  cbv zeta in *. revert Hs Hgi Hfiles. generalize (Path.join cwd (projectName op)). intros t.
  intros (_ & Hpj & _ & _ & _ & _ & Hlay & Hpage & Hcss) Hgi Hfiles.
  exists w2. split; [done|].
  assert (<[t ++ ["src"; "styles"; "globals.css"] := File globalCssContent]>
      (<[t ++ ["src"; "app"; "page.tsx"] := File pageContent]>
         (<[t ++ ["src"; "app"; "layout.tsx"] := File layoutContent]>
            (<[t ++ ["package.json"]
               := File (JSON.stringify (packageJson (projectName op)) 2)]> (files w1))))
          = files w1) as Hsame.
  { rewrite (insert_id (files w1) _ _ Hpj), (insert_id (files w1) _ _ Hlay),
      (insert_id (files w1) _ _ Hpage). by apply insert_id. }
  rewrite Hsame in Hfiles. destruct Hfiles as [[-> Hno]|[-> _]]; [|done].
  destruct Hgi as [Hgi|Hgi]; [by apply insert_id|congruence].
Qed.

Lemma rerun_changes_nothing_witness :
  ∃ w2, run calm ["home"] (app_request DefaultTypeScript)
          (files (run calm ["home"] (app_request DefaultTypeScript) home).2)
        = (Normal Succeeded, w2)
        ∧ files w2 = files (run calm ["home"] (app_request DefaultTypeScript) home).2.
Proof.
  refine (rerun_changes_nothing calm ["home"] (app_request DefaultTypeScript) home _
    obliging_calm _ _).
  - by intros cmd cwd fs.
  - vm_compute. reflexivity.
Defined.

(** X8.  The project name is joined as a path: for a name made of ordinary
    segments separated by [/], a run that succeeded has scaffolded the project
    in the directory that many levels below the working directory, and the
    manifest carries the name with its slashes. *)
Theorem nested_name_scaffolds_deeper H cwd op fs w' segs :
  segs ≠ [] →
  forallb Path.plain_segment segs = true →
  projectName op = String.concat "/" segs →
  gentle H →
  run H cwd op fs = (Normal Succeeded, w') →
  Path.join cwd (projectName op) = cwd ++ segs
  ∧ scaffolded (files w') (cwd ++ segs) (projectName op)
  ∧ JSON.field "name" (packageJson (projectName op))
    = Some (JSON.Str (String.concat "/" segs)).
Proof.
  intros Hne Hsegs Hname Hg Hrun.
  destruct (success_files H cwd op fs w' Hg Hrun) as [Hs _].
  rewrite Hname in Hs |- *. rewrite join_concat in Hs |- * by done. done.
Qed.

Lemma nested_name_scaffolds_deeper_witness :
  scaffolded
    (files (run calm ["home"] {| typed := "web/app"; template := DefaultTypeScript |}
              home).2)
    ["home"; "web"; "app"] "web/app".
Proof.
  refine (proj1 (proj2 (nested_name_scaffolds_deeper calm ["home"]
    {| typed := "web/app"; template := DefaultTypeScript |} home _ ["web"; "app"]
    _ _ _ gentle_calm _))); [done|reflexivity|reflexivity|].
  vm_compute. reflexivity.
Defined.



(** X10.  On a host whose subprocesses only add to the tree, an entry that
    was in the tree before the run, at a path other than the five the script
    writes, is there after it with the same content, however the run ends. *)
Theorem other_entries_keep_their_content H cwd op fs p n :
  let t := Path.join cwd (projectName op) in
  gentle H →
  fs !! p = Some n →
  p ∉ written_paths t →
  files (run H cwd op fs).2 !! p = Some n.
Proof.
  cbv zeta. intros Hg Hp. unfold written_paths.
  rewrite !not_elem_of_cons. revert Hp.
  on_every_run H cwd op fs.
  all: intros Hp (Hpj & Hlay & Hpage & Hcss & Hgi & _); by kept Hg.
Qed.

Lemma other_entries_keep_their_content_witness :
  files (run offline ["home"] (app_request DefaultTypeScript) home_with_app).2
    !! ["home"; "app"; "notes.txt"] = Some (File "keep").
Proof.
  refine (other_entries_keep_their_content offline ["home"] (app_request DefaultTypeScript)
    home_with_app ["home"; "app"; "notes.txt"] (File "keep") _ _ _).
  - by intros cmd cwd fs.
  - reflexivity.
  - unfold written_paths. rewrite !not_elem_of_cons.
    repeat split; try (by vm_compute). apply not_elem_of_nil.
Defined.

(** X11.  On a host whose subprocesses only add to the tree, a directory
    stays a directory: no run replaces one by a file, not even at a path the
    script writes. *)
Theorem directories_stay_directories H cwd op fs p :
  gentle H →
  is_dir fs p = true →
  is_dir (files (run H cwd op fs).2) p = true.
Proof.
  intros Hg Hp.
  apply (preserved_action (λ w, is_dir (files w) p = true) H cwd op); [| | | |exact Hp].
  - intros q [tree tr] Hd. simpl in Hd.
    destruct (fs_mkdir_cases H q tree tr) as [(fs' & -> & Hsub & _)|(fs' & code & -> & Hsub)];
      simpl; by eapply is_dir_weaken.
  - intros q content [tree tr] Hd. simpl in Hd.
    destruct (fs_writeFile_why H q content tree tr) as [(-> & _ & Hq)|(code & -> & _)];
      simpl; [|done].
    apply is_dir_insert_ne; [intros ->; congruence|done].
  - intros cmd dir [tree tr] Hd. simpl in Hd.
    destruct (execSync_cases H cmd dir tree tr) as [(-> & _)|(e & fs' & -> & [->| ->])];
      simpl; try done; (eapply is_dir_weaken; [apply Hg|done]).
  - by intros ev [tree tr] Hd.
Qed.

Lemma directories_stay_directories_witness :
  is_dir (files (run calm ["home"] (app_request DefaultTypeScript)
                   (<[ ["home"; "app"; "package.json"] := Dir ]> home_with_app)).2)
    ["home"; "app"; "package.json"] = true.
Proof.
  refine (directories_stay_directories calm ["home"] (app_request DefaultTypeScript)
    (<[ ["home"; "app"; "package.json"] := Dir ]> home_with_app)
    ["home"; "app"; "package.json"] gentle_calm _).
  reflexivity.
Defined.

(** X12.  On a host whose subprocesses leave the tree alone, a run changes
    nothing outside the project: a path that is neither the project path, nor
    above it, nor one of the ten of [project_paths] holds after the run what
    it held before, or nothing as before. *)
Theorem nothing_changes_outside_the_project H cwd op fs q :
  let t := Path.join cwd (projectName op) in
  inert H →
  ¬ q `prefix_of` t →
  q ∉ project_paths t →
  files (run H cwd op fs).2 !! q = fs !! q.
Proof. apply untouched_outside. Qed.

Lemma nothing_changes_outside_the_project_witness :
  files (run calm ["home"] (app_request DefaultTypeScript) home_with_app).2
    !! ["home"; "app"; "notes.txt"]
  = home_with_app !! ["home"; "app"; "notes.txt"].
Proof.
  refine (nothing_changes_outside_the_project calm ["home"] (app_request DefaultTypeScript)
    home_with_app ["home"; "app"; "notes.txt"] _ _ _).
  - by intros cmd cwd fs.
  - by intros [k Hk]; vm_compute in Hk.
  - unfold project_paths. rewrite !not_elem_of_cons.
    repeat split; try (by vm_compute). apply not_elem_of_nil.
Defined.

(** X13.  On a host that refuses nothing and whose subprocesses exit 0 and
    leave the tree alone, for a name that is one ordinary segment with nothing
    at or below it in the working directory, the run succeeds: its events are
    those of [clean_trace] and the tree it leaves is [fresh_tree], the tree it
    found with the project directory, the manifest, [public], [src] and its
    three directories, the three source files and the ignore file added. *)
Theorem fresh_project_is_scaffolded H cwd op fs :
  obliging H → inert H →
  Path.plain_segment (projectName op) = true →
  is_dir fs cwd = true →
  (∀ rel, fs !! (cwd ++ projectName op :: rel) = None) →
  run H cwd op fs
  = (Normal Succeeded,
     {| files := fresh_tree (projectName op) (cwd ++ [projectName op]) fs;
        trace := clean_trace (projectName op) (cwd ++ [projectName op]) |}).
Proof.
  intros [Hr Hz] Hi Hname Hcwd Hnone.
  assert (∀ rel, node_at fs ((cwd ++ [projectName op]) ++ rel) = None) as Hsub.
  { intros rel. rewrite <- app_assoc. simpl.
    specialize (Hnone rel). by destruct cwd. }
  assert (node_at fs (cwd ++ [projectName op]) = None) as Ht
    by (specialize (Hsub []); by rewrite app_nil_r in Hsub).
  assert (is_dir fs (Path.dirname (cwd ++ [projectName op])) = true) as Hup
    by by rewrite dirname_snoc.
  assert (cwd ++ [projectName op] ≠ []) as Hnil by by apply snoc_ne_nil.
  clear Hnone Hcwd. unfold_script. rewrite join_plain, join_text_plain by done.
  unfold fresh_tree, clean_trace, clean_events, opening.
  revert Hsub Ht Hup Hnil. generalize (cwd ++ [projectName op]). intros t Hsub Ht Hup Hnil.
  do 2 (rewrite prompt_ok by apply Hr; cbn [files trace app]). rewrite (Hr CallCwd).
  rewrite fs_mkdir_fresh by done. cbn [app].
  assert (is_dir (<[t := Dir]> fs) t = true) as Hdir by by apply is_dir_insert_dir.
  rewrite fs_writeFile_ok;
    [|done|by rewrite dirname_snoc|apply is_dir_absent; absent Hsub]. cbn [app].
  rewrite fs_mkdir_fresh; [|done|absent Hsub|rewrite dirname_snoc; inserted Hdir]. cbn [app].
  rewrite fs_mkdir_fresh2; [|done|absent Hsub|absent Hsub|inserted Hdir]. cbn [app].
  do 2 (rewrite fs_mkdir_fresh; [|done|absent Hsub|rewrite dirname_snoc2; inserted Hdir];
        cbn [app]).
  do 3 (rewrite fs_writeFile_ok;
    [|done|rewrite dirname_snoc3; inserted Hdir|apply is_dir_absent; absent Hsub];
    cbn [app]).
  rewrite execSync_ok by (first [apply Hz | inserted Hdir]). cbn [app]. rewrite Hi.
  rewrite fs_writeFile_ok;
    [|done|rewrite dirname_snoc; inserted Hdir|apply is_dir_absent; absent Hsub]. cbn [app].
  rewrite execSync_ok by (first [apply Hz | inserted Hdir]). cbn [app]. rewrite Hi.
  reflexivity.
Qed.

Lemma fresh_project_is_scaffolded_witness :
  run calm ["home"] (app_request DefaultTypeScript) home
  = (Normal Succeeded,
     {| files := fresh_tree "app" ["home"; "app"] home;
        trace := clean_trace "app" ["home"; "app"] |}).
Proof.
  refine (fresh_project_is_scaffolded calm ["home"] (app_request DefaultTypeScript) home
    obliging_calm _ _ _ _).
  - by intros cmd cwd fs.
  - reflexivity.
  - reflexivity.
  - intros rel. apply lookup_singleton_ne. discriminate.
Defined.

(** X14.  On a host whose subprocesses only add to the tree, a run in which
    [npm install] failed has failed with the whole project in place: the
    manifest, the directories and the source files are in the tree. *)
Theorem failed_install_leaves_the_project H cwd op fs e :
  let t := Path.join cwd (projectName op) in
  let r := run H cwd op fs in
  gentle H →
  EvExec "npm install" t (Some e) ∈ trace r.2 →
  r.1 = Normal Failed ∧ scaffolded (files r.2) t (projectName op).
Proof.
  cbv zeta. intros Hg.
  on_every_run H cwd op fs.
  all: intros Hin; mem_inv_by is_exec Hin.
  all: split; [reflexivity|]; unfold scaffolded.
  all: repeat split; try (by dirs Hg); try (by look Hg).
Qed.

Lemma failed_install_leaves_the_project_witness :
  scaffolded (files (run offline ["home"] (app_request DefaultTypeScript) home).2)
    ["home"; "app"] "app".
Proof.
  refine (proj2 (failed_install_leaves_the_project offline ["home"]
    (app_request DefaultTypeScript) home (ExecError "npm install" 1) _ _)).
  - by intros cmd cwd fs.
  - vm_compute. here.
Defined.


